(** * fips-check: the binary discovery and compliance-evaluation engine

    A shallow embedding of [internal/binarychecker/binarychecker.go] and of the
    status logic of [cmd/fips-checker/main.go], with the properties the
    specification states about them.

    Go strings are byte sequences: they are modelled as [string] (lists of
    8-bit [ascii]).  The operating system (file system, subprocesses) and the
    Go standard library are observed through oracles gathered in a [World]
    record; the goroutines of [Check] are modelled by an interleaving
    semantics whose steps are the statements between two synchronisation
    points. *)

From Stdlib Require Import String Ascii List Bool Arith Lia NArith.
From stdpp Require Import base list strings.

Local Open Scope string_scope.
#[local] Arguments String.append !_ _ / : simpl nomatch.

(** ** Package [strings] *)

Module Strings.

(** [strings.HasPrefix(s, prefix)]: [len(s) >= len(prefix) &&
    s[:len(prefix)] == prefix]. *)
Fixpoint HasPrefix (s prefix : string) {struct prefix} : bool :=
  match prefix with
  | EmptyString => true
  | String p prefix' =>
      match s with
      | EmptyString => false
      | String c s' => Ascii.eqb c p && HasPrefix s' prefix'
      end
  end.

(** [strings.Contains(s, substr)]: [Index(s, substr) >= 0], the substring is
    looked for at every offset of [s] from the left. *)
Fixpoint Contains (s substr : string) : bool :=
  HasPrefix s substr ||
  match s with
  | EmptyString => false
  | String _ s' => Contains s' substr
  end.

End Strings.

Export Strings.

(** From here on [++] is the append of lists and [+:+] that of strings. *)
Local Open Scope list_scope.

(** ** The data model of package [binarychecker] *)

(** The two values [ctx.Err()] takes once the context is done. *)
Inductive CtxErr := Canceled | DeadlineExceeded.

(** Go [error] values this package builds or passes on; [%w] wrapping is a
    constructor around its cause. *)
Inductive error :=
| ErrCtx (e : CtxErr)                 (* ctx.Err() *)
| ErrOS (msg : string)                (* an error of os, os/exec or debug/buildinfo *)
| ErrAbs (cause : error)              (* "failed to get absolute path: %w" *)
| ErrWalk (cause : error)             (* "error walking directory tree: %w" *)
| ErrReadBuildInfo (cause : error)    (* "failed to read build info: %w" *)
| ErrRuntimeCheck (cause : error).    (* "runtime FIPS check failed: %w" *)

Record GoBinaryReportDetails := mkDetails {
  GoVersion : string;
  Module_ : string;
  UseSystemcrypto : bool;
  CGOEnabled : bool;
  FailsOnFIPSCheck : bool;   (* the binary fails when run with GOFIPS=1 *)
  RuntimePanicLog : string   (* panic log of the runtime check *)
}.

Record BinaryReport := mkReport {
  RelativePath : string;
  Type_ : string;
  GoBinaryDetails : GoBinaryReportDetails;
  Error : option error
}.

(** Go zero values: [GoBinaryReportDetails{}] and the elements of
    [make([]BinaryReport, n)]. *)
Definition zeroDetails : GoBinaryReportDetails := mkDetails "" "" false false false "".
Definition zeroReport : BinaryReport := mkReport "" "" zeroDetails None.

(** [debug/buildinfo]: the part of [*debug.BuildInfo] the checker reads. *)
Module buildinfo.

Record BuildSetting := mkSetting { Key : string; Value : string }.

Record BuildInfo := mkInfo {
  GoVersion : string;
  Main_Path : string;
  Settings : list BuildSetting
}.

End buildinfo.

(** What [cmd.Run()] left behind when [checkRuntimeFIPS] ran the candidate
    with [GOFIPS=1] under the 2 second [execCtx]: the error of [Run] ([None]
    for a clean exit; an exit error, a kill at the deadline or a failure to
    start the process otherwise), the captured standard error and
    [execCtx.Err()]. *)
Record RunOutcome := mkRun {
  run_err : option error;
  run_stderr : string;
  execCtx_Err : option CtxErr
}.

Definition is_DeadlineExceeded (e : option CtxErr) : bool :=
  match e with Some DeadlineExceeded => true | _ => false end.

(** ** [shouldExcludePath] *)

Definition excludedPrefixes : list string := ["/proc/"; "/sys/"; "/dev/"].

(** The loop returns [true] at the first prefix that matches. *)
Definition shouldExcludePath (filePath : string) : bool :=
  (fix loop (prefixes : list string) : bool :=
     match prefixes with
     | [] => false
     | prefix :: rest => if HasPrefix filePath prefix then true else loop rest
     end) excludedPrefixes.

(** ** [checkRuntimeFIPS] *)

Definition fipsPanicIndicators : list string :=
  [ "panic: opensslcrypto: FIPS mode requested";
    "FIPS mode requested";
    "but not available in OpenSSL" ].

(** The first indicator found in the captured standard error, as the loop
    over [fipsPanicIndicators] finds it. *)
Fixpoint findIndicator (stderrOutput : string) (indicators : list string) : option string :=
  match indicators with
  | [] => None
  | indicator :: rest =>
      if Contains stderrOutput indicator then Some indicator
      else findIndicator stderrOutput rest
  end.

(** [checkRuntimeFIPS], after [cmd.Run()] has returned with outcome [o]:
    the triple (might be compliant, captured log, error). *)
Definition checkRuntimeFIPS (o : RunOutcome) : bool * string * option error :=
  let stderrOutput := run_stderr o in
  match findIndicator stderrOutput fipsPanicIndicators with
  | Some _ => (false, stderrOutput, None)
  | None =>
      match run_err o with
      | Some _ =>
          if is_DeadlineExceeded (execCtx_Err o) then (true, stderrOutput, None)
          else if negb (Contains stderrOutput "FIPS") then (true, stderrOutput, None)
          else (true, stderrOutput, None)
      | None => (true, stderrOutput, None)
      end
  end.

(** ** [checkGoBinaryFIPS] *)

Definition set_GoVersion (d : GoBinaryReportDetails) (v : string) :=
  mkDetails v (Module_ d) (UseSystemcrypto d) (CGOEnabled d) (FailsOnFIPSCheck d) (RuntimePanicLog d).
Definition set_Module (d : GoBinaryReportDetails) (v : string) :=
  mkDetails (GoVersion d) v (UseSystemcrypto d) (CGOEnabled d) (FailsOnFIPSCheck d) (RuntimePanicLog d).
Definition set_UseSystemcrypto (d : GoBinaryReportDetails) (v : bool) :=
  mkDetails (GoVersion d) (Module_ d) v (CGOEnabled d) (FailsOnFIPSCheck d) (RuntimePanicLog d).
Definition set_CGOEnabled (d : GoBinaryReportDetails) (v : bool) :=
  mkDetails (GoVersion d) (Module_ d) (UseSystemcrypto d) v (FailsOnFIPSCheck d) (RuntimePanicLog d).
Definition set_FailsOnFIPSCheck (d : GoBinaryReportDetails) (v : bool) :=
  mkDetails (GoVersion d) (Module_ d) (UseSystemcrypto d) (CGOEnabled d) v (RuntimePanicLog d).
Definition set_RuntimePanicLog (d : GoBinaryReportDetails) (v : string) :=
  mkDetails (GoVersion d) (Module_ d) (UseSystemcrypto d) (CGOEnabled d) (FailsOnFIPSCheck d) v.

(** One iteration of the loop over [info.Settings]: the [switch] on the key. *)
Definition applySetting (details : GoBinaryReportDetails) (setting : buildinfo.BuildSetting)
  : GoBinaryReportDetails :=
  if String.eqb (buildinfo.Key setting) "CGO_ENABLED" then
    set_CGOEnabled details (String.eqb (buildinfo.Value setting) "1")
  else if String.eqb (buildinfo.Key setting) "GOEXPERIMENT" then
    if Contains (buildinfo.Value setting) "systemcrypto"
    then set_UseSystemcrypto details true
    else details
  else details.

Definition scanSettings (settings : list buildinfo.BuildSetting) (details : GoBinaryReportDetails)
  : GoBinaryReportDetails :=
  fold_left applySetting settings details.

(** The first half of [checkGoBinaryFIPS], up to the call of
    [checkRuntimeFIPS]: the cancellation check, [buildinfo.ReadFile] (its
    result is [info]) and the static analysis.  [inl] is an early return,
    [inr] the details the function goes on with. *)
Definition checkStatic (ctxErr : option CtxErr) (info : buildinfo.BuildInfo + error)
  : (GoBinaryReportDetails * option error) + GoBinaryReportDetails :=
  let details := zeroDetails in
  match ctxErr with
  | Some e => inl (details, Some (ErrCtx e))
  | None =>
      match info with
      | inr err => inl (details, Some (ErrReadBuildInfo err))
      | inl info =>
          let details := set_GoVersion details (buildinfo.GoVersion info) in
          let details :=
            if negb (String.eqb (buildinfo.Main_Path info) "")
            then set_Module details (buildinfo.Main_Path info) else details in
          inr (scanSettings (buildinfo.Settings info) details)
      end
  end.

(** The second half: what is done with the result of [checkRuntimeFIPS]. *)
Definition checkRuntime (details : GoBinaryReportDetails) (r : bool * string * option error)
  : GoBinaryReportDetails * option error :=
  match r with
  | (_, _, Some err) => (details, Some (ErrRuntimeCheck err))
  | (passed, panicLog, None) =>
      let details := set_RuntimePanicLog details panicLog in
      let details := set_FailsOnFIPSCheck details (negb passed) in
      (details, None)
  end.

(** [checkGoBinaryFIPS] as a function of what it observes: [ctx.Err()] at
    its entry, the result of [buildinfo.ReadFile(filePath)] and the outcome
    of running the binary (looked at only when the probe is reached). *)
Definition checkGoBinaryFIPS (ctxErr : option CtxErr) (info : buildinfo.BuildInfo + error)
    (o : RunOutcome) : GoBinaryReportDetails * option error :=
  match checkStatic ctxErr info with
  | inl early => early
  | inr details => checkRuntime details (checkRuntimeFIPS o)
  end.

(** ** The world [Check] runs in *)

(** A file tree as [filepath.WalkDir] reads it: a directory lists its entries
    in the order [os.ReadDir] returns them, and [readErr] is the error of
    that [ReadDir], if any. *)
#[local] Set Warnings "-register-all".
Inductive FsNode :=
| FsFile
| FsDir (readErr : option error) (entries : list (string * FsNode)).
#[local] Set Warnings "register-all".

(** The operating system and the standard library, as oracles.  A file is
    read twice, by [isBinary] during the walk and by [checkGoBinaryFIPS] in
    its task, and the two reads need not agree. *)
Record World := mkWorld {
  filepath_Abs : string -> string + error;
  filepath_Rel : string -> string -> string + error;
  os_Lstat : string -> FsNode + error;       (* the tree at the walk's root *)
  os_Stat : string -> N + error;             (* info.Mode() *)
  elf_Open : string -> option error;
  isBinary_ReadFile : string -> option error;  (* buildinfo.ReadFile in isBinary *)
  buildinfo_ReadFile : string -> buildinfo.BuildInfo + error;
  cmd_Run : string -> RunOutcome   (* the probe, when the context is not cancelled *)
}.

(** ** [isBinary] *)

Definition isBinary (W : World) (filePath : string) : bool :=
  match os_Stat W filePath with
  | inr _ => false
  | inl mode =>
      if N.eqb (N.land mode 73 (* 0111 *)) 0 then false
      else match elf_Open W filePath with
           | Some _ => false
           | None =>
               match isBinary_ReadFile W filePath with
               | Some _ => false
               | None => true
               end
           end
  end.

(** ** [filepath.WalkDir] and the function [Check] passes to it *)

(** One call of the walk function: [fn(path, d, err)]. *)
Record WalkCall := mkCall {
  call_path : string;
  call_IsDir : bool;
  call_err : option error
}.

(** [filepath.Join(path, name)] for a clean [path] and a plain entry name. *)
Definition Join (path name : string) : string :=
  if String.eqb path "/" then "/" +:+ name else path +:+ "/" +:+ name.

(** The calls [walkDir] makes as long as the function returns [nil]: the
    entry itself, the directory once more when [ReadDir] failed, then the
    entries in order. *)
Fixpoint walkDir (path : string) (d : FsNode) : list WalkCall :=
  match d with
  | FsFile => [mkCall path false None]
  | FsDir readErr entries =>
      mkCall path true None ::
      match readErr with
      | Some err => [mkCall path true (Some err)]
      | None => []
      end ++
      (fix walkEntries (l : list (string * FsNode)) : list WalkCall :=
         match l with
         | [] => []
         | (name, d1) :: l' => walkDir (Join path name) d1 ++ walkEntries l'
         end) entries
  end.

(** [filepath.WalkDir(root, fn)]: when [os.Lstat(root)] fails, [fn] is called
    once, with that error. *)
Definition WalkDir (W : World) (root : string) : list WalkCall :=
  match os_Lstat W root with
  | inr err => [mkCall root false (Some err)]
  | inl d => walkDir root d
  end.

(** What [os.ReadDir] guarantees of the listings that [filepath.WalkDir]
    reads: the name of an entry is a file name, not empty and without a
    separator, and a directory lists no name twice. *)
Definition plainName (name : string) : bool :=
  negb (String.eqb name "") && negb (Contains name "/").

Fixpoint distinct (names : list string) : bool :=
  match names with
  | [] => true
  | name :: names' => negb (existsb (String.eqb name) names') && distinct names'
  end.

Fixpoint wellListed (d : FsNode) : bool :=
  match d with
  | FsFile => true
  | FsDir _ entries =>
      forallb plainName (map fst entries) && distinct (map fst entries) &&
      forallb (fun e => match e with (_, d1) => wellListed d1 end) entries
  end.

(** The tree at the root of the walk, if there is one, is listed that way. *)
Definition rootWellListed (W : World) (root : string) : bool :=
  match os_Lstat W root with
  | inl d => wellListed d
  | inr _ => true
  end.

(** The function literal of [Check]: [binaryPaths] after the call and the
    error returned to [WalkDir]. *)
Definition walkFn (W : World) (ctxErr : option CtxErr) (binaryPaths : list string)
    (c : WalkCall) : list string * option error :=
  match call_err c with
  | Some _ => (binaryPaths, None)          (* skip what cannot be read *)
  | None =>
      match ctxErr with
      | Some e => (binaryPaths, Some (ErrCtx e))
      | None =>
          if call_IsDir c then (binaryPaths, None)
          else if shouldExcludePath (call_path c) then (binaryPaths, None)
          else if isBinary W (call_path c) then (binaryPaths ++ [call_path c], None)
          else (binaryPaths, None)
      end
  end.

(** The candidates of a walk that is not cancelled, in discovery order. *)
Definition discover (W : World) (calls : list WalkCall) (acc : list string) : list string :=
  fold_left (fun acc c => fst (walkFn W None acc c)) calls acc.

(** ** One task of [Check] *)

Definition relPathOf (W : World) (absRoot fp : string) : string :=
  match filepath_Rel W absRoot fp with
  | inl relPath => relPath
  | inr _ => fp                (* fallback to absolute path *)
  end.

Definition buildReport (relPath : string) (r : GoBinaryReportDetails * option error)
  : BinaryReport :=
  mkReport relPath "gobinary" (fst r) (snd r).

(** The report of the candidate [fp] when the context is never cancelled: a
    function of what the world answers about [fp] alone. *)
Definition candidateReport (W : World) (absRoot fp : string) : BinaryReport :=
  buildReport (relPathOf W absRoot fp)
    (checkGoBinaryFIPS None (buildinfo_ReadFile W fp) (cmd_Run W fp)).

(** ** [Check] as a transition system *)

(** Where the goroutine started for index [idx] stands. *)
Inductive TaskPc :=
| TNotStarted                            (* its [go] statement is not reached *)
| TBlocked                               (* at [semaphore <- struct{}{}] *)
| TAcquired                              (* holds a token; at the [select] *)
| TChecking                              (* at the call of [checkGoBinaryFIPS] *)
| TProbing (details : GoBinaryReportDetails)   (* [cmd.Run()] in progress *)
| TComputed (report : BinaryReport)      (* at [mu.Lock()] *)
| TWritten                               (* [reports[idx]] written *)
| TSkipped                               (* returned at the [select] *)
| TReleased (wrote : bool)               (* token taken back; [wg.Done()] pending *)
| TDone (wrote : bool).

Inductive CheckResult :=
| Reports (reports : list BinaryReport)  (* [return reports, nil] *)
| Failed (err : error).                  (* [return nil, err] *)

(** Where [Check] itself stands. *)
Inductive MainPc :=
| MStart
| MWalk (pending : list WalkCall)        (* inside [filepath.WalkDir] *)
| MDispatch (i : nat)                    (* at the head of the [range] loop *)
| MWait                                  (* at [wg.Wait()] *)
| MFinal                                 (* at the last [ctx.Err()] *)
| MReturned (res : CheckResult).

Record State := mkState {
  ctx : option CtxErr;                   (* [ctx.Err()] *)
  pc : MainPc;
  absRoot : string;
  binaryPaths : list string;
  reports : list BinaryReport;
  tasks : list TaskPc;
  semaphore : nat;                       (* tokens in the channel *)
  writes : list nat                      (* ghost: assignments to each slot *)
}.

Definition maxParallel : nat := 10.      (* [make(chan struct{}, 10)] *)

Definition init : State := mkState None MStart "" [] [] [] 0 [].

Definition set_ctx (s : State) (c : option CtxErr) : State :=
  mkState c (pc s) (absRoot s) (binaryPaths s) (reports s) (tasks s) (semaphore s) (writes s).
Definition set_pc (s : State) (p : MainPc) : State :=
  mkState (ctx s) p (absRoot s) (binaryPaths s) (reports s) (tasks s) (semaphore s) (writes s).
Definition set_task (s : State) (idx : nat) (t : TaskPc) : State :=
  mkState (ctx s) (pc s) (absRoot s) (binaryPaths s) (reports s) (<[idx:=t]> (tasks s))
    (semaphore s) (writes s).
Definition set_semaphore (s : State) (n : nat) : State :=
  mkState (ctx s) (pc s) (absRoot s) (binaryPaths s) (reports s) (tasks s) n (writes s).

Definition finished (t : TaskPc) : bool :=
  match t with TNotStarted | TDone _ => true | _ => false end.

(** The next statement of [Check]'s own goroutine; [None] when it is blocked
    or has returned. *)
Definition stepMain (W : World) (path : string) (s : State) : option State :=
  match pc s with
  | MStart =>
      match filepath_Abs W path with
      | inr err => Some (set_pc s (MReturned (Failed (ErrAbs err))))
      | inl root =>
          Some (mkState (ctx s) (MWalk (WalkDir W root)) root (binaryPaths s)
                  (reports s) (tasks s) (semaphore s) (writes s))
      end
  | MWalk (c :: pending) =>
      match walkFn W (ctx s) (binaryPaths s) c with
      | (_, Some err) => Some (set_pc s (MReturned (Failed (ErrWalk err))))
      | (paths, None) =>
          Some (mkState (ctx s) (MWalk pending) (absRoot s) paths
                  (reports s) (tasks s) (semaphore s) (writes s))
      end
  | MWalk [] =>
      let n := length (binaryPaths s) in
      Some (mkState (ctx s) (MDispatch 0) (absRoot s) (binaryPaths s)
              (replicate n zeroReport) (replicate n TNotStarted) 0 (replicate n 0))
  | MDispatch i =>
      match binaryPaths s !! i with
      | None => Some (set_pc s MWait)
      | Some _ =>
          match ctx s with
          | Some e => Some (set_pc s (MReturned (Failed (ErrCtx e))))
          | None => Some (set_pc (set_task s i TBlocked) (MDispatch (S i)))
          end
      end
  | MWait =>
      if forallb finished (tasks s) then Some (set_pc s MFinal) else None
  | MFinal =>
      match ctx s with
      | Some e => Some (set_pc s (MReturned (Failed (ErrCtx e))))
      | None => Some (set_pc s (MReturned (Reports (reports s))))
      end
  | MReturned _ => None
  end.

(** The next statement of the goroutine of index [idx]; [None] when it is
    not started, blocked on the semaphore or done. *)
Definition stepTask (W : World) (idx : nat) (s : State) : option State :=
  match tasks s !! idx, binaryPaths s !! idx with
  | Some t, Some fp =>
      match t with
      | TNotStarted => None
      | TBlocked =>
          if Nat.ltb (semaphore s) maxParallel
          then Some (set_semaphore (set_task s idx TAcquired) (S (semaphore s)))
          else None
      | TAcquired =>
          match ctx s with
          | Some _ => Some (set_task s idx TSkipped)
          | None => Some (set_task s idx TChecking)
          end
      | TChecking =>
          let relPath := relPathOf W (absRoot s) fp in
          match checkStatic (ctx s) (buildinfo_ReadFile W fp) with
          | inl early => Some (set_task s idx (TComputed (buildReport relPath early)))
          | inr details => Some (set_task s idx (TProbing details))
          end
      | TProbing details =>
          let relPath := relPathOf W (absRoot s) fp in
          Some (set_task s idx
                  (TComputed (buildReport relPath
                     (checkRuntime details (checkRuntimeFIPS (cmd_Run W fp))))))
      | TComputed report =>
          Some (mkState (ctx s) (pc s) (absRoot s) (binaryPaths s)
                  (<[idx:=report]> (reports s)) (<[idx:=TWritten]> (tasks s))
                  (semaphore s) (alter S idx (writes s)))
      | TWritten =>
          Some (set_semaphore (set_task s idx (TReleased true)) (pred (semaphore s)))
      | TSkipped =>
          Some (set_semaphore (set_task s idx (TReleased false)) (pred (semaphore s)))
      | TReleased wrote => Some (set_task s idx (TDone wrote))
      | TDone _ => None
      end
  | _, _ => None
  end.

(** A probe that the cancellation of [ctx] interrupts ends with an outcome
    [o] of its own. *)
Definition stepKilled (W : World) (idx : nat) (o : RunOutcome) (s : State) : option State :=
  match ctx s, tasks s !! idx, binaryPaths s !! idx with
  | Some _, Some (TProbing details), Some fp =>
      Some (set_task s idx
              (TComputed (buildReport (relPathOf W (absRoot s) fp)
                 (checkRuntime details (checkRuntimeFIPS o)))))
  | _, _, _ => None
  end.

Inductive Label :=
| LCancel (e : CtxErr)                   (* the context is cancelled or times out *)
| LMain                                  (* a statement of [Check] *)
| LTask (idx : nat)                      (* a statement of goroutine [idx] *)
| LKilled (idx : nat) (o : RunOutcome).  (* the probe of [idx] ends, interrupted *)

Definition exec (W : World) (path : string) (l : Label) (s : State) : option State :=
  match l with
  | LCancel e => match ctx s with None => Some (set_ctx s (Some e)) | Some _ => None end
  | LMain => stepMain W path s
  | LTask idx => stepTask W idx s
  | LKilled idx o => stepKilled W idx o s
  end.

(** A schedule is run from left to right. *)
Fixpoint run (W : World) (path : string) (ls : list Label) (s : State) : option State :=
  match ls with
  | [] => Some s
  | l :: ls' =>
      match exec W path l s with
      | Some s' => run W path ls' s'
      | None => None
      end
  end.

Inductive reachable (W : World) (path : string) : State -> Prop :=
| reachable_init : reachable W path init
| reachable_step s l s' :
    reachable W path s -> exec W path l s = Some s' -> reachable W path s'.

(** ** The status the command-line tool prints *)

(** The three statuses [printReports] of [cmd/fips-checker] prints. *)
Inductive PrintedStatus :=
| NOT_FIPS_ENABLED        (* "NOT FIPS ENABLED (no systemcrypto)" *)
| STATUS_NOT_COMPLIANT    (* "NOT COMPLIANT" *)
| MIGHT_BE_COMPLIANT.     (* "MIGHT BE COMPLIANT" *)

(** The branches of [printReports] that choose the "FIPS Status" line. *)
Definition printedStatus (details : GoBinaryReportDetails) : PrintedStatus :=
  if negb (UseSystemcrypto details) then NOT_FIPS_ENABLED
  else if FailsOnFIPSCheck details then STATUS_NOT_COMPLIANT
  else MIGHT_BE_COMPLIANT.

(** ** The compliance evaluator *)

Inductive Reason :=
| CryptoBackendNotEngaged        (* "crypto backend not engaged" *)
| RuntimeRefusedStrictMode       (* "runtime refused strict mode" *)
| HostLacksValidatedModule.      (* "host lacks a validated cryptographic module" *)

Inductive ComplianceVerdict :=
| COMPLIANT
| NOT_COMPLIANT (reason : Reason).

(** Modelled from the spec: the evaluator, [IsBinaryFIPSCompliant] of package
    [fipscheck], is not among the sources; only its tests and its callers
    are.  Section 4.5 of the specification gives it as a priority list over
    [usesSystemCrypto], [runtimeProbePassed] and [hostFipsCapable]. *)
Definition evaluate (usesSystemCrypto runtimeProbePassed hostFipsCapable : bool)
  : ComplianceVerdict :=
  if negb usesSystemCrypto then NOT_COMPLIANT CryptoBackendNotEngaged
  else if negb runtimeProbePassed then NOT_COMPLIANT RuntimeRefusedStrictMode
  else if negb hostFipsCapable then NOT_COMPLIANT HostLacksValidatedModule
  else COMPLIANT.

Definition isCompliant (v : ComplianceVerdict) : bool :=
  match v with COMPLIANT => true | NOT_COMPLIANT _ => false end.

(** Modelled from the spec: the evaluator with the signature its tests call
    it with, [IsBinaryFIPSCompliant(details, hostCapable) bool]; the probe
    passed when [FailsOnFIPSCheck] is [false]. *)
Definition IsBinaryFIPSCompliant (details : GoBinaryReportDetails) (hostCapable : bool) : bool :=
  isCompliant (evaluate (UseSystemcrypto details) (negb (FailsOnFIPSCheck details)) hostCapable).

(** The table of [TestIsBinaryFIPSCompliant]: details, host capability and
    the expected answer. *)
Definition testDetails (useSystemcrypto cgoEnabled failsOnFIPSCheck : bool) :=
  mkDetails "" "" useSystemcrypto cgoEnabled failsOnFIPSCheck "".

Definition TestIsBinaryFIPSCompliant_table : list (GoBinaryReportDetails * bool * bool) :=
  [ (testDetails true true false, true, true);      (* fully_compliant *)
    (testDetails false true false, true, false);    (* no_systemcrypto *)
    (testDetails true true true, true, false);      (* runtime_fails *)
    (testDetails true true false, false, false);    (* host_not_capable *)
    (testDetails false false true, false, false) ]. (* multiple_issues *)

(** ** Invariants of the transition system *)

(** A task holds a token of the semaphore from its send to the deferred
    receive. *)
Definition holding (t : TaskPc) : bool :=
  match t with
  | TAcquired | TChecking | TProbing _ | TComputed _ | TWritten | TSkipped => true
  | _ => false
  end.

(** The probe subprocess of a task runs while the task is inside
    [cmd.Run()]. *)
Definition probing (t : TaskPc) : bool :=
  match t with TProbing _ => true | _ => false end.

(** A task has assigned its slot. *)
Definition wrote (t : TaskPc) : bool :=
  match t with TWritten | TReleased true | TDone true => true | _ => false end.

Definition done (t : TaskPc) : bool :=
  match t with TDone _ => true | _ => false end.

Fixpoint countIf (f : TaskPc -> bool) (l : list TaskPc) : nat :=
  match l with
  | [] => 0
  | t :: l' => (if f t then 1 else 0) + countIf f l'
  end.

Definition walking (p : MainPc) : bool :=
  match p with MStart | MWalk _ => true | _ => false end.

Definition allocated (p : MainPc) : bool :=
  match p with MDispatch _ | MWait | MFinal => true | _ => false end.

(** The candidates of the scan and the reports a scan that is not cancelled
    returns for them. *)
Definition candidates (W : World) (root : string) : list string :=
  discover W (WalkDir W root) [].

Definition expectedReports (W : World) (root : string) : list BinaryReport :=
  map (candidateReport W root) (candidates W root).

(** What a task has computed so far is what [candidateReport] computes, as
    long as the context is not cancelled. *)
Definition task_ok (W : World) (s : State) (idx : nat) (t : TaskPc) : Prop :=
  match t with
  | TProbing d =>
      exists fp, binaryPaths s !! idx = Some fp /\
                 checkStatic None (buildinfo_ReadFile W fp) = inr d
  | TComputed r =>
      exists fp, binaryPaths s !! idx = Some fp /\ r = candidateReport W (absRoot s) fp
  | TWritten | TReleased true | TDone true =>
      exists fp, binaryPaths s !! idx = Some fp /\
                 reports s !! idx = Some (candidateReport W (absRoot s) fp)
  | TSkipped | TReleased false | TDone false => False
  | _ => True
  end.

Record Inv (W : World) (path : string) (s : State) : Prop := mkInv {
  inv_reports : length (reports s) = length (tasks s);
  inv_writes_len : length (writes s) = length (tasks s);
  inv_walking : walking (pc s) = true -> tasks s = [];
  inv_alloc : allocated (pc s) = true -> length (tasks s) = length (binaryPaths s);
  inv_paths : tasks s <> [] -> length (tasks s) = length (binaryPaths s);
  inv_sem : semaphore s = countIf holding (tasks s);
  inv_sem_max : semaphore s <= maxParallel;
  inv_dispatch :
    match pc s with
    | MDispatch i => forall j t, tasks s !! j = Some t -> (t = TNotStarted <-> i <= j)
    | MWait => forall j t, tasks s !! j = Some t -> t <> TNotStarted
    | MFinal => forall j t, tasks s !! j = Some t -> done t = true
    | _ => True
    end;
  inv_walk :
    match pc s with
    | MStart => binaryPaths s = []
    | MWalk pending =>
        filepath_Abs W path = inl (absRoot s) /\
        discover W pending (binaryPaths s) = candidates W (absRoot s) /\
        exists visited, WalkDir W (absRoot s) = visited ++ pending
    | MDispatch _ | MWait | MFinal =>
        filepath_Abs W path = inl (absRoot s) /\
        binaryPaths s = candidates W (absRoot s)
    | MReturned _ => True
    end;
  inv_tasks :
    ctx s = None -> forall idx t, tasks s !! idx = Some t -> task_ok W s idx t;
  inv_writes :
    forall idx t, tasks s !! idx = Some t ->
                  writes s !! idx = Some (if wrote t then 1 else 0);
  inv_returned :
    forall rs, pc s = MReturned (Reports rs) ->
      filepath_Abs W path = inl (absRoot s) /\
      rs = expectedReports W (absRoot s) /\
      reports s = rs /\
      length (tasks s) = length rs /\
      (forall j t, tasks s !! j = Some t -> t = TDone true);
  inv_failed :
    forall err, pc s = MReturned (Failed err) ->
      (exists cause, filepath_Abs W path = inr cause /\ err = ErrAbs cause) \/
      (exists e call,
         ctx s = Some e /\ filepath_Abs W path = inl (absRoot s) /\
         err = ErrWalk (ErrCtx e) /\
         call ∈ WalkDir W (absRoot s) /\ call_err call = None) \/
      (exists e,
         ctx s = Some e /\ filepath_Abs W path = inl (absRoot s) /\ err = ErrCtx e)
}.

(** ** A small world to run [Check] in *)

Module Demo.

(** An extracted image under [/rootfs]: three Go binaries and a plain file.
    [bin/broken] passes [isBinary] during the walk but its build information
    cannot be read any more when its task runs; [bin/tool] panics under
    [GOFIPS=1]; [bin/app] is still running at the deadline; [bin/legacy]
    cannot be started. *)
Definition tree : FsNode :=
  FsDir None
    [ ("bin", FsDir None [ ("app", FsFile); ("broken", FsFile); ("tool", FsFile) ]);
      ("etc", FsDir None [ ("passwd", FsFile) ]) ].

Definition info : buildinfo.BuildInfo :=
  buildinfo.mkInfo "go1.24.6 X:systemcrypto" "example.com/app"
    [ buildinfo.mkSetting "-buildmode" "exe";
      buildinfo.mkSetting "CGO_ENABLED" "1";
      buildinfo.mkSetting "GOEXPERIMENT" "systemcrypto" ].

(** Build information in which [CGO_ENABLED] occurs twice. *)
Definition twiceCGO : buildinfo.BuildInfo :=
  buildinfo.mkInfo "go1.24.6" "example.com/app"
    [ buildinfo.mkSetting "CGO_ENABLED" "1";
      buildinfo.mkSetting "CGO_ENABLED" "0" ].

Definition panicLog : string :=
  "panic: opensslcrypto: FIPS mode requested (system FIPS mode) but not available in OpenSSL 3.0.16".

Definition timedOut : RunOutcome :=
  mkRun (Some (ErrOS "signal: killed")) "" (Some DeadlineExceeded).
Definition panicked : RunOutcome :=
  mkRun (Some (ErrOS "exit status 2")) panicLog None.
Definition notStarted : RunOutcome :=
  mkRun (Some (ErrOS "fork/exec: exec format error")) "" None.

(** [strings.TrimPrefix], enough of [filepath.Rel] for paths under the
    root. *)
Fixpoint TrimPrefix (s prefix : string) : string :=
  match prefix, s with
  | String p prefix', String c s' => if Ascii.eqb c p then TrimPrefix s' prefix' else s
  | _, _ => s
  end.

Definition world : World := {|
  filepath_Abs := fun p => inl p;
  filepath_Rel := fun base targ =>
    if HasPrefix targ (base +:+ "/") then inl (TrimPrefix targ (base +:+ "/"))
    else inr (ErrOS "Rel: can't make relative");
  os_Lstat := fun p =>
    if String.eqb p "/rootfs" then inl tree
    else inr (ErrOS "lstat: no such file or directory");
  os_Stat := fun p =>
    if String.eqb p "/rootfs/etc/passwd" then inl 420%N (* 0644 *) else inl 493%N (* 0755 *);
  elf_Open := fun _ => None;
  isBinary_ReadFile := fun _ => None;
  buildinfo_ReadFile := fun p =>
    if String.eqb p "/rootfs/bin/broken" then inr (ErrOS "unexpected EOF") else inl info;
  cmd_Run := fun p =>
    if String.eqb p "/rootfs/bin/tool" then panicked else timedOut
|}.

Definition after (path : string) (schedule : list Label) : State :=
  match run world path schedule init with
  | Some s => s
  | None => init
  end.

(** [Check] walks the tree (a call for the root, then a step per walked
    entry), allocates and dispatches the three tasks. *)
Definition dispatchAll : list Label := replicate 13 LMain.

(** The three tasks run one after the other, then [Check] returns. *)
Definition inOrder : list Label :=
  dispatchAll ++ replicate 7 (LTask 0) ++ replicate 6 (LTask 1) ++ replicate 7 (LTask 2)
    ++ replicate 2 LMain.

(** The tasks complete in the opposite order, their steps interleaved. *)
Definition reversed : list Label :=
  dispatchAll
    ++ [LTask 2; LTask 1; LTask 0; LTask 2; LTask 0; LTask 1; LTask 2; LTask 1; LTask 0]
    ++ replicate 4 (LTask 2) ++ replicate 3 (LTask 1) ++ replicate 4 (LTask 0)
    ++ replicate 2 LMain.

(** The probes of [bin/app] and [bin/tool] run at the same time. *)
Definition twoProbes : list Label :=
  dispatchAll ++ [LTask 0; LTask 2; LTask 0; LTask 2; LTask 0; LTask 2].

(** The context is cancelled while the first task runs its probe and the
    loop is about to dispatch the second. *)
Definition cancelledInLoop : list Label :=
  replicate 10 LMain ++ [LTask 0; LTask 0; LTask 0; LCancel Canceled; LMain].

(** The context is cancelled after the last dispatch, while two tasks are
    still to run; [Check] has passed [wg.Wait()]. *)
Definition cancelledInWait : list Label :=
  dispatchAll ++ replicate 7 (LTask 0) ++ [LTask 1; LTask 1; LCancel Canceled]
    ++ replicate 4 (LTask 1) ++ replicate 4 (LTask 2) ++ [LMain].

Definition missing : string := "/definitely/does/not/exist".

End Demo.

(** ** A measure of what is left to do *)

(** The number of statements a goroutine still has to execute, at most. *)
Definition rank (t : TaskPc) : nat :=
  match t with
  | TNotStarted => 8
  | TBlocked => 7
  | TAcquired => 6
  | TChecking => 5
  | TProbing _ => 4
  | TComputed _ => 3
  | TWritten | TSkipped => 2
  | TReleased _ => 1
  | TDone _ => 0
  end.

Fixpoint sumRank (l : list TaskPc) : nat :=
  match l with
  | [] => 0
  | t :: l' => rank t + sumRank l'
  end.

(** The statements [Check] itself still has to execute, at most; a walked
    entry may add a candidate, which costs a dispatch and a task. *)
Definition mainRank (W : World) (path : string) (s : State) : nat :=
  match pc s with
  | MStart =>
      match filepath_Abs W path with
      | inl root => 10 * length (WalkDir W root) + 9 * length (binaryPaths s) + 6
      | inr _ => 1
      end
  | MWalk pending => 10 * length pending + 9 * length (binaryPaths s) + 5
  | MDispatch i => (length (binaryPaths s) - i) + 3
  | MWait => 2
  | MFinal => 1
  | MReturned _ => 0
  end.

Definition measure (W : World) (path : string) (s : State) : nat :=
  mainRank W path s + sumRank (tasks s) +
  match ctx s with Some _ => 0 | None => 1 end.

Definition isCancel (l : Label) : bool :=
  match l with LCancel _ => true | _ => false end.

Definition returned (s : State) : bool :=
  match pc s with MReturned _ => true | _ => false end.

(** The calls of a walk that the walk function of [Check] turns into
    candidates: readable, not a directory, not excluded, a Go binary. *)
Definition accepted (W : World) (c : WalkCall) : bool :=
  match call_err c with
  | Some _ => false
  | None =>
      negb (call_IsDir c) && negb (shouldExcludePath (call_path c))
        && isBinary W (call_path c)
  end.

(** ** [cmd/fips-checker]: the report that [printReports] prints *)

Module fipschecker.

(** The first loop of [printReports]: [systemcryptoCount] and
    [failedCount]. *)
Definition countStatistics (reports : list BinaryReport) : nat * nat :=
  fold_left
    (fun counts report =>
       (if UseSystemcrypto (GoBinaryDetails report) then S (fst counts) else fst counts,
        if FailsOnFIPSCheck (GoBinaryDetails report) then S (snd counts) else snd counts))
    reports (0, 0).

Definition PrintedStatus_eqb (a b : PrintedStatus) : bool :=
  match a, b with
  | NOT_FIPS_ENABLED, NOT_FIPS_ENABLED
  | STATUS_NOT_COMPLIANT, STATUS_NOT_COMPLIANT
  | MIGHT_BE_COMPLIANT, MIGHT_BE_COMPLIANT => true
  | _, _ => false
  end.

(** The number of reports for which the second loop prints the status
    [st]. *)
Definition countStatus (st : PrintedStatus) (reports : list BinaryReport) : nat :=
  length (List.filter
            (fun report => PrintedStatus_eqb (printedStatus (GoBinaryDetails report)) st)
            reports).

Definition newline : ascii := "010"%char.
Definition nl : string := String newline EmptyString.

(** [strings.SplitSeq(s, "\n")]: the substrings between the newlines, the
    empty ones included; a string without newline is one substring. *)
Fixpoint SplitSeq_newline (s : string) : list string :=
  match s with
  | EmptyString => [EmptyString]
  | String c s' =>
      if Ascii.eqb c newline then EmptyString :: SplitSeq_newline s'
      else match SplitSeq_newline s' with
           | line :: lines => String c line :: lines
           | [] => [String c EmptyString]
           end
  end.

(** [strings.Join(lines, "\n")]. *)
Fixpoint Join_newline (lines : list string) : string :=
  match lines with
  | [] => EmptyString
  | [line] => line
  | line :: lines' => line +:+ nl +:+ Join_newline lines'
  end.

(** The bytes of a string. *)
Definition chars (s : string) : list ascii := list_ascii_of_string s.

(** [printRuntimeOutput]: what each [fmt.Printf] of the function writes. *)
Definition printRuntimeOutput (log : string) : list string :=
  if negb (String.eqb log "") then
    ("    Runtime Output:" +:+ nl) ::
    flat_map (fun line =>
                if negb (String.eqb line "") then ["        " +:+ line +:+ nl] else [])
             (SplitSeq_newline log)
  else [].

End fipschecker.

(** ** Package [opensslsetup] *)

Module opensslsetup.

Definition knownVersions : list string := ["3"; "1.1"; "11"; "111"].

Definition lcryptoPrefix : string := "libcrypto.so.".

(** The loop of [searchKnownLibrary] over the versions that are left, with
    the fallback found so far.  [checkVersion] answers (exists, fips). *)
Fixpoint searchVersions (checkVersion : string -> bool * bool) (versions : list string)
    (lcryptoFallback : string) : string :=
  match versions with
  | [] => lcryptoFallback
  | v :: rest =>
      let lcryptoCandidate := lcryptoPrefix +:+ v in
      if fst (checkVersion lcryptoCandidate) then
        if snd (checkVersion lcryptoCandidate) then lcryptoCandidate
        else searchVersions checkVersion rest
               (if String.eqb lcryptoFallback "" then lcryptoCandidate else lcryptoFallback)
      else searchVersions checkVersion rest lcryptoFallback
  end.

Definition searchKnownLibrary (checkVersion : string -> bool * bool) : string :=
  searchVersions checkVersion knownVersions "".

(** [library]; [Getenv] is [syscall.Getenv], of which only the value is
    used. *)
Definition library (Getenv : string -> string * bool) (checkVersion : string -> bool * bool)
  : string :=
  let version := fst (Getenv "GO_OPENSSL_VERSION_OVERRIDE") in
  if negb (String.eqb version "") then lcryptoPrefix +:+ version
  else
    let lib := searchKnownLibrary checkVersion in
    if negb (String.eqb lib "") then lib
    else substring 0 (String.length lcryptoPrefix - 1) lcryptoPrefix.

(** [init]: the message of the panic when [openssl.Init] fails on the
    library ([openssl_Init] returns the text of its error). *)
Definition init (Getenv : string -> string * bool) (checkVersion : string -> bool * bool)
    (openssl_Init : string -> option string) : option string :=
  let lib := library Getenv checkVersion in
  match openssl_Init lib with
  | Some err => Some ("opensslcrypto: can't initialize OpenSSL " +:+ lib +:+ ": " +:+ err)
  | None => None
  end.

End opensslsetup.

(** ** [build-and-check.sh]: the tag of the image that is built *)

Module build_and_check.

(** The expansion [${s//from/to}] for a pattern of one character. *)
Fixpoint replaceAll (from to : ascii) (s : string) : string :=
  match s with
  | EmptyString => EmptyString
  | String c s' => String (if Ascii.eqb c from then to else c) (replaceAll from to s')
  end.

(** The two assignments to [IMAGE_TAG]. *)
Definition IMAGE_TAG (RUNTIME_IMAGE : string) : string :=
  let IMAGE_TAG := "fips-checker:" +:+ replaceAll "/" "-" RUNTIME_IMAGE in
  replaceAll ":" "-" IMAGE_TAG.

End build_and_check.

(** A world in which every file is a Go binary that passes its probe: an
    image with a [proc] and a [usr] directory, found at every root. *)
Definition imageWorld : World :=
  mkWorld (fun p => inl p) (fun _ p => inl p)
    (fun _ => inl (FsDir None [("proc", FsDir None [("cpuinfo", FsFile)]);
                               ("usr", FsDir None [("app", FsFile)])]))
    (fun _ => inl 493%N) (fun _ => None) (fun _ => None)
    (fun _ => inl Demo.info) (fun _ => Demo.timedOut).

(** * Properties *)

(** ** Strings *)

Section StringFacts.
Local Open Scope string_scope.

Lemma HasPrefix_spec (s p : string) :
  HasPrefix s p = true <-> exists rest, s = p ++ rest.
Proof.
  revert s; induction p as [|a p IH]; intros s; simpl.
  - split; [intros _; by exists s | done].
  - destruct s as [|c s]; simpl.
    + split; [done | intros [rest Hr]; discriminate].
    + rewrite andb_true_iff, Ascii.eqb_eq, IH. split.
      * intros [-> [rest ->]]. by exists rest.
      * intros [rest Hr]. injection Hr as -> ->. split; [done | by exists rest].
Qed.

Lemma HasPrefix_app (p rest : string) : HasPrefix (p ++ rest) p = true.
Proof. apply HasPrefix_spec. by exists rest. Qed.

Lemma Contains_spec (s sub : string) :
  Contains s sub = true <-> exists pre post, s = pre ++ sub ++ post.
Proof.
  induction s as [|c s IH]; simpl; rewrite orb_true_iff, HasPrefix_spec.
  - split.
    + intros [[rest Hr] | ?]; [|done]. by exists "", rest.
    + intros (pre & post & H). left. destruct pre; simpl in H; [|done].
      by exists post.
  - rewrite IH. split.
    + intros [[rest Hr] | (pre & post & ->)].
      * by exists "", rest.
      * by exists (String c pre), post.
    + intros (pre & post & H). destruct pre as [|a pre]; simpl in H.
      * left. by exists post.
      * right. injection H as -> ->. by exists pre, post.
Qed.

Lemma Contains_false_spec (s sub : string) :
  Contains s sub = false <-> ~ exists pre post, s = pre ++ sub ++ post.
Proof.
  rewrite <- Contains_spec. destruct (Contains s sub); split; done.
Qed.

Lemma append_assoc (a b c : string) : (a ++ b) ++ c = a ++ (b ++ c).
Proof. induction a as [|x a IH]; simpl; [done | by rewrite IH]. Qed.

Lemma append_empty_r (a : string) : a ++ "" = a.
Proof. induction a as [|x a IH]; simpl; [done | by rewrite IH]. Qed.

Lemma length_append (a b : string) :
  String.length (a ++ b) = String.length a + String.length b.
Proof. induction a as [|x a IH]; simpl; [done | by rewrite IH]. Qed.

(** A string that contains [sub] contains every substring of [sub]. *)
Lemma Contains_trans (s sub sub' : string) :
  Contains s sub = true -> Contains sub sub' = true -> Contains s sub' = true.
Proof.
  rewrite !Contains_spec. intros (pre & post & ->) (pre' & post' & ->).
  exists (pre ++ pre'), (post' ++ post).
  by rewrite !append_assoc.
Qed.

End StringFacts.

(** ** The runtime probe *)

Lemma findIndicator_Some (s : string) (l : list string) (m : string) :
  findIndicator s l = Some m -> m ∈ l /\ Contains s m = true.
Proof.
  induction l as [|x l IH]; simpl; [done|].
  destruct (Contains s x) eqn:Hx.
  - intros [= <-]. split; [apply list_elem_of_here | done].
  - intros H. destruct (IH H) as [Hin Hc]. split; [by apply list_elem_of_further | done].
Qed.

Lemma findIndicator_None (s : string) (l : list string) :
  findIndicator s l = None <-> forall m, m ∈ l -> Contains s m = false.
Proof.
  induction l as [|x l IH]; simpl.
  - split; [intros _ m Hm; by apply not_elem_of_nil in Hm | done].
  - destruct (Contains s x) eqn:Hx.
    + split; [done|]. intros H. rewrite (H x) in Hx; [done | apply list_elem_of_here].
    + rewrite IH. split.
      * intros H m [->|Hm]%elem_of_cons; [done | by apply H].
      * intros H m Hm. apply H. by apply list_elem_of_further.
Qed.

(** [checkRuntimeFIPS] never returns an error: every [return] of the
    function has [nil] in its third place. *)
Lemma checkRuntimeFIPS_no_error (o : RunOutcome) : snd (checkRuntimeFIPS o) = None.
Proof.
  unfold checkRuntimeFIPS.
  destruct (findIndicator _ _); [done|].
  destruct (run_err o); [|done].
  destruct (is_DeadlineExceeded _); [done|].
  by destruct (negb _).
Qed.

Lemma checkRuntimeFIPS_log (o : RunOutcome) : snd (fst (checkRuntimeFIPS o)) = run_stderr o.
Proof.
  unfold checkRuntimeFIPS.
  destruct (findIndicator _ _); [done|].
  destruct (run_err o); [|done].
  destruct (is_DeadlineExceeded _); [done|].
  by destruct (negb _).
Qed.

Lemma checkRuntimeFIPS_passed (o : RunOutcome) :
  fst (fst (checkRuntimeFIPS o)) =
  match findIndicator (run_stderr o) fipsPanicIndicators with
  | Some _ => false
  | None => true
  end.
Proof.
  unfold checkRuntimeFIPS.
  destruct (findIndicator _ _); [done|].
  destruct (run_err o); [|done].
  destruct (is_DeadlineExceeded _); [done|].
  by destruct (negb _).
Qed.

(** What [checkGoBinaryFIPS] returns once the build information is read:
    the static details, completed with the result of the probe. *)
Lemma checkGoBinaryFIPS_readable (info : buildinfo.BuildInfo) (o : RunOutcome) :
  exists details,
    checkStatic None (inl info) = inr details /\
    checkGoBinaryFIPS None (inl info) o =
      (set_FailsOnFIPSCheck (set_RuntimePanicLog details (run_stderr o))
         (negb (fst (fst (checkRuntimeFIPS o)))), None).
Proof.
  unfold checkGoBinaryFIPS. simpl. eexists. split; [done|].
  pose proof (checkRuntimeFIPS_no_error o) as He.
  pose proof (checkRuntimeFIPS_log o) as Hl.
  destruct (checkRuntimeFIPS o) as [[p l] e]. simpl in *. by subst.
Qed.

(** C3.  The probe fails exactly when the captured standard error contains
    one of the fixed markers, whatever the exit status, the error of [Run]
    or the deadline; it passes in every other case.  The captured text is
    kept as the log, and the report of a probed candidate carries both. *)
Theorem checkRuntimeFIPS_failed_iff_marker (o : RunOutcome) :
  (fst (fst (checkRuntimeFIPS o)) = false <->
   exists marker pre post,
     marker ∈ fipsPanicIndicators /\ run_stderr o = pre +:+ marker +:+ post) /\
  (fst (fst (checkRuntimeFIPS o)) = true <->
   forall marker, marker ∈ fipsPanicIndicators -> Contains (run_stderr o) marker = false) /\
  snd (fst (checkRuntimeFIPS o)) = run_stderr o /\
  forall info,
    FailsOnFIPSCheck (fst (checkGoBinaryFIPS None (inl info) o))
      = negb (fst (fst (checkRuntimeFIPS o))) /\
    RuntimePanicLog (fst (checkGoBinaryFIPS None (inl info) o)) = run_stderr o /\
    snd (checkGoBinaryFIPS None (inl info) o) = None.
Proof.
  rewrite checkRuntimeFIPS_passed. repeat split.
  - destruct (findIndicator _ _) as [m|] eqn:Hf; [|done].
    intros _. apply findIndicator_Some in Hf as [Hin Hc].
    apply Contains_spec in Hc as (pre & post & Hc). by exists m, pre, post.
  - intros (m & pre & post & Hin & Hs).
    destruct (findIndicator _ _) as [m'|] eqn:Hf; [done|].
    rewrite findIndicator_None in Hf. specialize (Hf m Hin).
    apply Contains_false_spec in Hf. destruct Hf. by exists pre, post.
  - destruct (findIndicator _ _) as [m|] eqn:Hf; [done|].
    intros _. by apply findIndicator_None.
  - intros H. apply findIndicator_None in H. by rewrite H.
  - apply checkRuntimeFIPS_log.
  - destruct (checkGoBinaryFIPS_readable info o) as (d & _ & ->). simpl.
    by rewrite checkRuntimeFIPS_passed.
  - by destruct (checkGoBinaryFIPS_readable info o) as (d & _ & ->).
  - by destruct (checkGoBinaryFIPS_readable info o) as (d & _ & ->).
Qed.

(** C4.  A candidate that cannot be started ([cmd.Run()] returns an error,
    nothing is captured, the deadline is not reached) is reported as a probe
    that passed, without any error: the report does not tell it from a
    candidate that ran and passed. *)
Theorem start_failure_reported_as_passed (msg : string) (info : buildinfo.BuildInfo) :
  let o := mkRun (Some (ErrOS msg)) "" None in
  checkRuntimeFIPS o = (true, "", None) /\
  FailsOnFIPSCheck (fst (checkGoBinaryFIPS None (inl info) o)) = false /\
  snd (checkGoBinaryFIPS None (inl info) o) = None /\
  checkGoBinaryFIPS None (inl info) o = checkGoBinaryFIPS None (inl info) (mkRun None "" None).
Proof. done. Qed.

(** ** The static analysis of the build settings *)

Lemma scanSettings_snoc (l : list buildinfo.BuildSetting) (x : buildinfo.BuildSetting)
    (d : GoBinaryReportDetails) :
  scanSettings (l ++ [x]) d = applySetting (scanSettings l d) x.
Proof. unfold scanSettings. by rewrite fold_left_app. Qed.

Lemma applySetting_CGOEnabled (d : GoBinaryReportDetails) (x : buildinfo.BuildSetting) :
  CGOEnabled (applySetting d x) =
  if String.eqb (buildinfo.Key x) "CGO_ENABLED"
  then String.eqb (buildinfo.Value x) "1" else CGOEnabled d.
Proof.
  unfold applySetting. destruct (String.eqb (buildinfo.Key x) "CGO_ENABLED"); [done|].
  destruct (String.eqb (buildinfo.Key x) "GOEXPERIMENT"); [|done].
  by destruct (Contains _ _).
Qed.

Lemma applySetting_UseSystemcrypto (d : GoBinaryReportDetails) (x : buildinfo.BuildSetting) :
  UseSystemcrypto (applySetting d x) =
  UseSystemcrypto d ||
  (String.eqb (buildinfo.Key x) "GOEXPERIMENT" && Contains (buildinfo.Value x) "systemcrypto").
Proof.
  unfold applySetting.
  destruct (String.eqb (buildinfo.Key x) "CGO_ENABLED") eqn:Hc.
  - apply String.eqb_eq in Hc. rewrite Hc. simpl. by rewrite orb_false_r.
  - destruct (String.eqb (buildinfo.Key x) "GOEXPERIMENT"); simpl; [|by rewrite orb_false_r].
    destruct (Contains _ _); simpl; [by rewrite orb_true_r | by rewrite orb_false_r].
Qed.

(** The setting that decides [CGOEnabled] is the last one whose key is
    [CGO_ENABLED]: every such setting overwrites the flag. *)
Definition lastCGO (l : list buildinfo.BuildSetting) (value : string) : Prop :=
  exists pre post,
    l = pre ++ buildinfo.mkSetting "CGO_ENABLED" value :: post /\
    forall st, st ∈ post -> buildinfo.Key st <> "CGO_ENABLED"%string.

Lemma lastCGO_snoc_other (l : list buildinfo.BuildSetting) (x : buildinfo.BuildSetting)
    (value : string) :
  buildinfo.Key x <> "CGO_ENABLED"%string ->
  lastCGO (l ++ [x]) value <-> lastCGO l value.
Proof.
  intros Hx. split.
  - intros (pre & post & Hl & Hpost).
    destruct (decide (post = [])) as [->|Hne].
    + apply app_inj_tail in Hl as [_ ->]. by destruct Hx.
    + destruct (exists_last Hne) as (post' & y & ->).
      rewrite app_comm_cons, app_assoc in Hl. apply app_inj_tail in Hl as [-> ->].
      exists pre, post'. split; [done|].
      intros st Hst. apply Hpost. apply elem_of_app. by left.
  - intros (pre & post & -> & Hpost). exists pre, (post ++ [x]).
    split; [by rewrite <- app_assoc|].
    intros st [Hst| ->%list_elem_of_singleton]%elem_of_app; [by apply Hpost | done].
Qed.

Lemma lastCGO_snoc_same (l : list buildinfo.BuildSetting) (x : buildinfo.BuildSetting)
    (value : string) :
  buildinfo.Key x = "CGO_ENABLED"%string ->
  lastCGO (l ++ [x]) value <-> buildinfo.Value x = value.
Proof.
  intros Hx. split.
  - intros (pre & post & Hl & Hpost).
    destruct (decide (post = [])) as [->|Hne].
    + by apply app_inj_tail in Hl as [_ ->].
    + destruct (exists_last Hne) as (post' & y & ->).
      rewrite app_comm_cons, app_assoc in Hl. apply app_inj_tail in Hl as [_ ->].
      destruct (Hpost y); [|done]. apply elem_of_app. right. apply list_elem_of_here.
  - intros <-. exists l, []. split; [|by intros st ?%not_elem_of_nil].
    destruct x as [k v]. simpl in Hx. by subst.
Qed.

Lemma scanSettings_CGOEnabled (l : list buildinfo.BuildSetting) (d : GoBinaryReportDetails) :
  CGOEnabled d = false ->
  CGOEnabled (scanSettings l d) = true <-> lastCGO l "1".
Proof.
  intros Hd. induction l as [|x l IH] using rev_ind.
  - simpl. rewrite Hd. split; [done|].
    intros (pre & post & Hl & _). by destruct pre.
  - rewrite scanSettings_snoc, applySetting_CGOEnabled.
    destruct (String.eqb (buildinfo.Key x) "CGO_ENABLED") eqn:Hk.
    + apply String.eqb_eq in Hk. by rewrite lastCGO_snoc_same, String.eqb_eq.
    + apply String.eqb_neq in Hk. by rewrite lastCGO_snoc_other.
Qed.

Lemma scanSettings_UseSystemcrypto (l : list buildinfo.BuildSetting) (d : GoBinaryReportDetails) :
  UseSystemcrypto (scanSettings l d) = true <->
  UseSystemcrypto d = true \/
  exists st, st ∈ l /\ buildinfo.Key st = "GOEXPERIMENT"%string /\
             Contains (buildinfo.Value st) "systemcrypto" = true.
Proof.
  revert d. induction l as [|x l IH]; intros d.
  - simpl. split; [by left|]. intros [?|(st & []%not_elem_of_nil & _)]. done.
  - change (scanSettings (x :: l) d) with (scanSettings l (applySetting d x)).
    rewrite IH, applySetting_UseSystemcrypto, orb_true_iff, andb_true_iff, String.eqb_eq.
    split.
    + intros [[?|[Hk Hv]]|(st & Hst & Hk & Hv)].
      * by left.
      * right. exists x. split; [apply list_elem_of_here | done].
      * right. exists st. split; [by apply list_elem_of_further | done].
    + intros [?|(st & [->|Hst]%elem_of_cons & Hk & Hv)].
      * left. by left.
      * left. by right.
      * right. by exists st.
Qed.

Lemma scanSettings_CGOEnabled_all_one (l : list buildinfo.BuildSetting)
    (d : GoBinaryReportDetails) :
  (forall st, st ∈ l -> buildinfo.Key st = "CGO_ENABLED"%string ->
              buildinfo.Value st = "1"%string) ->
  CGOEnabled (scanSettings l d) =
  CGOEnabled d || existsb (fun st => String.eqb (buildinfo.Key st) "CGO_ENABLED") l.
Proof.
  revert d. induction l as [|x l IH]; intros d Hall.
  - simpl. by rewrite orb_false_r.
  - change (scanSettings (x :: l) d) with (scanSettings l (applySetting d x)).
    rewrite IH by (intros st Hst; apply Hall; by apply list_elem_of_further).
    rewrite applySetting_CGOEnabled. simpl.
    destruct (String.eqb (buildinfo.Key x) "CGO_ENABLED") eqn:Hk.
    + apply String.eqb_eq in Hk. rewrite (Hall x (list_elem_of_here _ _) Hk).
      simpl. by rewrite orb_true_r.
    + done.
Qed.

Lemma checkGoBinaryFIPS_static_flags (info : buildinfo.BuildInfo) (o : RunOutcome) :
  exists d0,
    CGOEnabled d0 = false /\ UseSystemcrypto d0 = false /\
    CGOEnabled (fst (checkGoBinaryFIPS None (inl info) o))
      = CGOEnabled (scanSettings (buildinfo.Settings info) d0) /\
    UseSystemcrypto (fst (checkGoBinaryFIPS None (inl info) o))
      = UseSystemcrypto (scanSettings (buildinfo.Settings info) d0).
Proof.
  destruct (checkGoBinaryFIPS_readable info o) as (d & Hd & ->).
  simpl in Hd. injection Hd as <-. eexists. split; [|split; [|split; reflexivity]].
  - by destruct (negb _).
  - by destruct (negb _).
Qed.

(** C6, as amended.  For a candidate whose build information is read,
    [CGOEnabled] is true iff the last [CGO_ENABLED] setting of the list has
    the value ["1"], and [UseSystemcrypto] is true iff some [GOEXPERIMENT]
    setting has a value that contains ["systemcrypto"].  When the list has at
    most one [CGO_ENABLED] setting, [CGOEnabled] is true iff the list
    contains the setting [CGO_ENABLED=1]. *)
Theorem checkGoBinaryFIPS_flags (info : buildinfo.BuildInfo) (o : RunOutcome) :
  let details := fst (checkGoBinaryFIPS None (inl info) o) in
  let settings := buildinfo.Settings info in
  (CGOEnabled details = true <->
   exists pre post,
     settings = pre ++ buildinfo.mkSetting "CGO_ENABLED" "1" :: post /\
     forall st, st ∈ post -> buildinfo.Key st <> "CGO_ENABLED"%string) /\
  (UseSystemcrypto details = true <->
   exists st, st ∈ settings /\ buildinfo.Key st = "GOEXPERIMENT"%string /\
     exists pre post, buildinfo.Value st = (pre +:+ "systemcrypto" +:+ post)%string) /\
  ((forall st st', st ∈ settings -> st' ∈ settings ->
      buildinfo.Key st = "CGO_ENABLED"%string -> buildinfo.Key st' = "CGO_ENABLED"%string ->
      st = st') ->
   (CGOEnabled details = true <-> buildinfo.mkSetting "CGO_ENABLED" "1" ∈ settings)).
Proof.
  intros details settings. subst details settings.
  destruct (checkGoBinaryFIPS_static_flags info o) as (d0 & Hc & Hu & -> & ->).
  split; [by apply scanSettings_CGOEnabled|]. split.
  - rewrite scanSettings_UseSystemcrypto, Hu. split.
    + intros [?|(st & Hst & Hk & Hv)]; [done|]. exists st. by rewrite <- Contains_spec.
    + intros (st & Hst & Hk & Hv). right. exists st. by rewrite Contains_spec.
  - intros Huniq. split.
    + intros (pre & post & -> & _)%scanSettings_CGOEnabled; [|done].
      apply elem_of_app. right. apply list_elem_of_here.
    + intros Hin. rewrite scanSettings_CGOEnabled_all_one, Hc.
      * simpl. apply existsb_exists. exists (buildinfo.mkSetting "CGO_ENABLED" "1").
        split; [by apply list_elem_of_In | done].
      * intros st Hst Hk. by rewrite (Huniq _ _ Hst Hin Hk eq_refl).
Qed.

(** ** The path filter *)

Lemma shouldExcludePath_spec (p : string) :
  shouldExcludePath p = true <->
  exists rest, p = ("/proc/" +:+ rest)%string \/ p = ("/sys/" +:+ rest)%string \/
               p = ("/dev/" +:+ rest)%string.
Proof.
  unfold shouldExcludePath, excludedPrefixes. split.
  - destruct (HasPrefix p "/proc/") eqn:H1.
    { apply HasPrefix_spec in H1 as [rest ->]. exists rest. by left. }
    destruct (HasPrefix p "/sys/") eqn:H2.
    { apply HasPrefix_spec in H2 as [rest ->]. exists rest. right. by left. }
    destruct (HasPrefix p "/dev/") eqn:H3; [|done].
    apply HasPrefix_spec in H3 as [rest ->]. exists rest. right. by right.
  - intros [rest [-> | [-> | ->]]]; reflexivity.
Qed.

(** Two ways to cut one string meet in a common middle part. *)
Lemma append_eq_append (a b c d : string) :
  (a +:+ b = c +:+ d)%string ->
  (exists k, c = (a +:+ k)%string /\ b = (k +:+ d)%string) \/
  (exists k, a = (c +:+ k)%string /\ d = (k +:+ b)%string).
Proof.
  revert c. induction a as [|x a IH]; intros c H; simpl in H.
  - left. by exists c.
  - destruct c as [|y c]; simpl in H.
    + right. by exists (String x a).
    + injection H as -> H. destruct (IH c H) as [(k & -> & ->)|(k & -> & ->)].
      * left. by exists k.
      * right. by exists k.
Qed.

(** In an excluded prefix the only separator after the first character is
    the last one. *)
Lemma excludedPrefix_cut (prefix a k : string) :
  prefix ∈ excludedPrefixes -> prefix = (a +:+ "/" +:+ k)%string -> a = ""%string \/ k = ""%string.
Proof.
  unfold excludedPrefixes.
  intros [->|[->|[->|[]%not_elem_of_nil]%elem_of_cons]%elem_of_cons]%elem_of_cons H;
    repeat (destruct a as [|? a]; simpl in H;
            [first [discriminate H | by left | (injection H as <-; by right)]
            | first [discriminate H | injection H as <- H]]).
Qed.

Lemma shouldExcludePath_prefix (p : string) :
  shouldExcludePath p = true <->
  exists prefix rest, prefix ∈ excludedPrefixes /\ p = (prefix +:+ rest)%string.
Proof.
  rewrite shouldExcludePath_spec. unfold excludedPrefixes. split.
  - intros [rest [-> | [-> | ->]]];
      [exists "/proc/"%string, rest | exists "/sys/"%string, rest | exists "/dev/"%string, rest];
      (split; [|done]); rewrite !elem_of_cons; auto.
  - intros (prefix & rest & Hin & ->). exists rest.
    rewrite !elem_of_cons in Hin. destruct Hin as [->|[->|[->|[]%not_elem_of_nil]]]; auto.
Qed.

Lemma shouldExcludePath_beneath (root rel : string) :
  root <> ""%string -> root <> "/"%string ->
  shouldExcludePath (root +:+ "/") = false ->
  shouldExcludePath (Join root rel) = false.
Proof.
  intros Hne Hroot Hr. unfold Join.
  destruct (String.eqb root "/") eqn:He; [by apply String.eqb_eq in He|].
  destruct (shouldExcludePath (root +:+ "/" +:+ rel)) eqn:Hx; [|done].
  apply shouldExcludePath_prefix in Hx as (prefix & rest & Hin & Hx).
  rewrite <- append_assoc in Hx.
  assert (shouldExcludePath (root +:+ "/") = true) as Ht; [|by rewrite Ht in Hr].
  apply shouldExcludePath_prefix.
  apply append_eq_append in Hx as [(k & Hp & _)|(k & Hp & _)].
  - rewrite append_assoc in Hp.
    destruct (excludedPrefix_cut _ _ _ Hin Hp) as [->| ->]; [done|].
    exists prefix, ""%string. split; [done|]. rewrite Hp. simpl.
    by rewrite append_empty_r.
  - by exists prefix, k.
Qed.

(** C10, as amended.  The filter excludes a path iff the path begins with
    one of ["/proc/"], ["/sys/"], ["/dev/"], and [Check] keeps a file entry
    as a candidate iff the filter does not exclude it and [isBinary] accepts
    it.  Consequently, under a scan root that is not the file system root
    and does not itself lie at or under [/proc], [/sys] or [/dev], no entry
    is excluded, whatever its path beneath the root. *)
Theorem shouldExcludePath_literal_prefix :
  (forall p, shouldExcludePath p = true <->
     exists rest, p = ("/proc/" +:+ rest)%string \/ p = ("/sys/" +:+ rest)%string \/
                  p = ("/dev/" +:+ rest)%string) /\
  (forall W acc p,
     walkFn W None acc (mkCall p false None) =
       (if shouldExcludePath p then acc else if isBinary W p then acc ++ [p] else acc, None)) /\
  (forall root rel,
     root <> ""%string -> root <> "/"%string ->
     shouldExcludePath (root +:+ "/") = false ->
     shouldExcludePath (Join root rel) = false).
Proof.
  split; [apply shouldExcludePath_spec|]. split; [|apply shouldExcludePath_beneath].
  intros W acc p. unfold walkFn. simpl.
  destruct (shouldExcludePath p); [done|]. by destruct (isBinary W p).
Qed.

(** The [proc] subtree of an extracted image under [/tmp] is scanned. *)
Example shouldExcludePath_tmp_rootfs :
  shouldExcludePath (Join "/tmp/rootfs" "proc/1/exe") = false /\
  shouldExcludePath (Join "/" "proc/1/exe") = true.
Proof. done. Qed.

(** C10, counterexample.  A scan root other than the file system root whose
    [proc] subtree is excluded all the same: the root of a process under
    [/proc]. *)
Lemma shouldExcludePath_root_under_proc :
  "/proc/1/root"%string <> "/"%string /\
  shouldExcludePath (Join "/proc/1/root" "proc/cpuinfo") = true /\
  shouldExcludePath (Join "/proc/1/root" "sys/kernel/x") = true /\
  shouldExcludePath (Join "/proc/1/root" "dev/null") = true.
Proof. done. Qed.

(** ** The compliance evaluator *)

(** C1.  The evaluator is a total function of the three booleans that
    follows the priority table: without [usesSystemCrypto] the verdict is
    NOT_COMPLIANT whatever the other two; with it and a failed probe,
    NOT_COMPLIANT; with both and a host that is not capable, NOT_COMPLIANT
    for the host reason; COMPLIANT exactly when all three are true. *)
Theorem evaluate_priority_table :
  (forall runtimeProbePassed hostFipsCapable,
     evaluate false runtimeProbePassed hostFipsCapable
       = NOT_COMPLIANT CryptoBackendNotEngaged) /\
  (forall hostFipsCapable,
     evaluate true false hostFipsCapable = NOT_COMPLIANT RuntimeRefusedStrictMode) /\
  evaluate true true false = NOT_COMPLIANT HostLacksValidatedModule /\
  evaluate true true true = COMPLIANT /\
  (forall usesSystemCrypto runtimeProbePassed hostFipsCapable,
     evaluate usesSystemCrypto runtimeProbePassed hostFipsCapable = COMPLIANT <->
     usesSystemCrypto = true /\ runtimeProbePassed = true /\ hostFipsCapable = true) /\
  (forall details hostCapable,
     IsBinaryFIPSCompliant details hostCapable =
       UseSystemcrypto details && negb (FailsOnFIPSCheck details) && hostCapable).
Proof.
  repeat split; try done.
  - by destruct usesSystemCrypto.
  - by destruct usesSystemCrypto, runtimeProbePassed.
  - by destruct usesSystemCrypto, runtimeProbePassed, hostFipsCapable.
  - by intros (-> & -> & ->).
  - intros details hostCapable. unfold IsBinaryFIPSCompliant.
    by destruct (UseSystemcrypto details), (FailsOnFIPSCheck details), hostCapable.
Qed.

(** The evaluator passes the table of [TestIsBinaryFIPSCompliant]. *)
Lemma TestIsBinaryFIPSCompliant_passes :
  Forall (fun '(details, hostCapable, expected) =>
            IsBinaryFIPSCompliant details hostCapable = expected)
    TestIsBinaryFIPSCompliant_table.
Proof. repeat constructor. Qed.

(** The status [printReports] prints does not look at the host: it is
    "MIGHT BE COMPLIANT" exactly when the evaluator answers COMPLIANT on a
    capable host. *)
Lemma printedStatus_evaluate (details : GoBinaryReportDetails) :
  (printedStatus details = MIGHT_BE_COMPLIANT <->
   IsBinaryFIPSCompliant details true = true) /\
  (printedStatus details = NOT_FIPS_ENABLED <->
   evaluate (UseSystemcrypto details) (negb (FailsOnFIPSCheck details)) true
     = NOT_COMPLIANT CryptoBackendNotEngaged) /\
  (printedStatus details = STATUS_NOT_COMPLIANT <->
   evaluate (UseSystemcrypto details) (negb (FailsOnFIPSCheck details)) true
     = NOT_COMPLIANT RuntimeRefusedStrictMode).
Proof.
  unfold printedStatus, IsBinaryFIPSCompliant.
  by destruct (UseSystemcrypto details), (FailsOnFIPSCheck details).
Qed.

(** ** The transition system: invariants *)

Lemma countIf_insert (f : TaskPc -> bool) (l : list TaskPc) (i : nat) (a b : TaskPc) :
  l !! i = Some a ->
  countIf f (<[i:=b]> l) + (if f a then 1 else 0) = countIf f l + (if f b then 1 else 0).
Proof.
  revert i. induction l as [|t l IH]; intros [|i] H; simpl in *; try done.
  - injection H as ->. lia.
  - specialize (IH i H). lia.
Qed.

Lemma countIf_replicate (f : TaskPc -> bool) (n : nat) (t : TaskPc) :
  f t = false -> countIf f (replicate n t) = 0.
Proof. intros H. induction n as [|n IH]; simpl; [done | by rewrite H]. Qed.

Lemma countIf_le (f g : TaskPc -> bool) (l : list TaskPc) :
  (forall t, f t = true -> g t = true) -> countIf f l <= countIf g l.
Proof.
  intros H. induction l as [|t l IH]; simpl; [done|].
  destruct (f t) eqn:Hf; [rewrite (H t Hf)|destruct (g t)]; lia.
Qed.

Lemma walkFn_no_error (W : World) (c : option CtxErr) (acc paths : list string) (call : WalkCall) :
  walkFn W c acc call = (paths, None) -> paths = fst (walkFn W None acc call).
Proof.
  unfold walkFn. destruct (call_err call); [by intros [= <-]|].
  destruct c; [done|]. by intros ->.
Qed.

Lemma walkFn_error (W : World) (c : option CtxErr) (acc paths : list string)
    (call : WalkCall) (err : error) :
  walkFn W c acc call = (paths, Some err) ->
  exists e, c = Some e /\ err = ErrCtx e /\ call_err call = None.
Proof.
  unfold walkFn. destruct (call_err call); [done|].
  destruct c as [e|].
  - intros [= <- <-]. by exists e.
  - by repeat case_match.
Qed.

Lemma Inv_init (W : World) (path : string) : Inv W path init.
Proof.
  constructor; simpl; try done. unfold maxParallel. lia.
Qed.

Ltac inv_destruct HI :=
  destruct HI as [Hrep Hwl Hwalking Halloc Hpaths Hsem Hmax Hdisp Hwalk Htasks Hwrites Hret Hfail].

Lemma Inv_cancel (W : World) (path : string) (s : State) (e : CtxErr) :
  Inv W path s -> ctx s = None -> Inv W path (set_ctx s (Some e)).
Proof.
  intros HI Hc. inv_destruct HI. constructor; simpl; try done.
  intros err Hpc.
  destruct (Hfail err Hpc) as [?|[(e' & call & ? & _)|(e' & ? & _)]];
    [by left | congruence | congruence].
Qed.

Lemma finished_done (t : TaskPc) : finished t = true -> t <> TNotStarted -> done t = true.
Proof. by destruct t. Qed.

Lemma Inv_main (W : World) (path : string) (s s' : State) :
  Inv W path s -> stepMain W path s = Some s' -> Inv W path s'.
Proof.
  intros HI H. unfold stepMain in H.
  destruct (pc s) as [|[|c pending]|i| | |res] eqn:Hpc.
  - (* MStart *)
    inv_destruct HI. rewrite Hpc in *. simpl in *.
    destruct (filepath_Abs W path) as [root|err] eqn:Habs; simplify_eq.
    + constructor; simpl; try done.
      * rewrite Hwalk. split; [done|]. split; [done|]. by exists [].
      * intros _ idx t. by rewrite Hwalking.
    + constructor; simpl; try done.
      intros ? [= <-]. left. by exists err.
  - (* MWalk [] *)
    inv_destruct HI. rewrite Hpc in *. simpl in *. simplify_eq.
    destruct Hwalk as (Ha & Hd & _).
    constructor; simpl; rewrite ?length_replicate; try done.
    + by rewrite countIf_replicate.
    + unfold maxParallel. lia.
    + intros j t [-> _]%lookup_replicate. split; [lia | done].
    + by intros _ idx t [-> _]%lookup_replicate.
    + intros idx t [-> Hlt]%lookup_replicate. simpl. by apply lookup_replicate.
  - (* MWalk (c :: pending) *)
    inv_destruct HI. rewrite Hpc in *. simpl in *.
    destruct (walkFn W (ctx s) (binaryPaths s) c) as [paths [err|]] eqn:Hfn; simplify_eq.
    + destruct Hwalk as (Ha & Hd & visited & Hv).
      destruct (walkFn_error _ _ _ _ _ _ Hfn) as (e & He & -> & Hc).
      constructor; simpl; try done.
      intros ? [= <-]. right. left. exists e, c. repeat split; try done.
      rewrite Hv. apply elem_of_app. right. apply list_elem_of_here.
    + destruct Hwalk as (Ha & Hd & visited & Hv).
      constructor; simpl; try done.
      * intros Hne. by destruct Hne, Hwalking.
      * split; [done|]. split.
        -- by rewrite (walkFn_no_error _ _ _ _ _ Hfn), <- Hd.
        -- exists (visited ++ [c]). by rewrite <- app_assoc.
      * intros _ idx t. by rewrite Hwalking.
  - (* MDispatch i *)
    inv_destruct HI. rewrite Hpc in *. simpl in *.
    destruct (binaryPaths s !! i) as [fp|] eqn:Hfp; [destruct (ctx s) as [e|] eqn:Hctx|];
      simplify_eq.
    + constructor; simpl; try done; [by rewrite Hctx|].
      intros ? [= <-]. right. right. exists e. by destruct Hwalk.
    + assert (tasks s !! i = Some TNotStarted) as Hi.
      { apply lookup_lt_Some in Hfp. rewrite <- Halloc in Hfp by done.
        apply lookup_lt_is_Some in Hfp as [t Ht]. rewrite Ht. f_equal.
        by apply (Hdisp i t Ht). }
      pose proof (countIf_insert holding _ _ _ TBlocked Hi) as Hc. simpl in Hc.
      constructor; simpl; rewrite ?length_insert; try done.
      * intros Hne. apply Hpaths. intros E. by rewrite E in Hi.
      * lia.
      * intros j t [(<- & <- & _)|[Hne Hj]]%list_lookup_insert_Some.
        -- split; [done | lia].
        -- rewrite (Hdisp j t Hj). lia.
      * rewrite Hctx. intros _ idx t [(<- & <- & _)|[Hne Hj]]%list_lookup_insert_Some; [done|].
        by apply (Htasks eq_refl idx t Hj).
      * intros idx t [(<- & <- & _)|[Hne Hj]]%list_lookup_insert_Some.
        -- by apply (Hwrites i TNotStarted).
        -- by apply Hwrites.
    + constructor; simpl; try done.
      intros j t Hj ->. pose proof (proj1 (Hdisp j _ Hj) eq_refl) as Ht.
      apply lookup_ge_None in Hfp. apply lookup_lt_Some in Hj.
      rewrite Halloc in Hj by done. lia.
  - (* MWait *)
    inv_destruct HI. rewrite Hpc in *. simpl in *.
    destruct (forallb finished (tasks s)) eqn:Hall; simplify_eq.
    constructor; simpl; try done.
    intros j t Hj. apply finished_done; [|by apply (Hdisp j)].
    rewrite forallb_forall in Hall. apply Hall, list_elem_of_In.
    by apply list_elem_of_lookup_2 with j.
  - (* MFinal *)
    inv_destruct HI. rewrite Hpc in *. simpl in *.
    destruct (ctx s) as [e|] eqn:Hctx; simplify_eq.
    + constructor; simpl; try done; [by rewrite Hctx|].
      intros ? [= <-]. right. right. exists e. by destruct Hwalk.
    + assert (forall j t, tasks s !! j = Some t -> t = TDone true) as Hdone.
      { intros j t Hj. pose proof (Hdisp j t Hj) as Hd.
        pose proof (Htasks eq_refl j t Hj) as Hok.
        destruct t as [| | | | | | | | |[|]]; try done. }
      destruct Hwalk as [Habs Hcand].
      constructor; simpl; try done.
      * by rewrite Hctx.
      * intros rs [= <-]. split; [done|]. split; [|split; [done|split; [done|done]]].
        unfold expectedReports. rewrite <- Hcand.
        apply list_eq. intros j. rewrite list_lookup_fmap.
        destruct (tasks s !! j) as [t|] eqn:Hj.
        -- pose proof (Htasks eq_refl j t Hj) as Hok. rewrite (Hdone j t Hj) in Hok.
           destruct Hok as (fp & -> & ->). done.
        -- apply lookup_ge_None in Hj.
           rewrite (proj2 (lookup_ge_None (reports s) j)) by lia.
           rewrite (proj2 (lookup_ge_None (binaryPaths s) j)); [done|].
           rewrite <- Halloc by done. lia.
  - (* MReturned *) done.
Qed.

Lemma task_ok_frame (W : World) (s s' : State) (idx : nat) (t : TaskPc) :
  binaryPaths s' = binaryPaths s -> absRoot s' = absRoot s -> reports s' !! idx = reports s !! idx ->
  task_ok W s idx t -> task_ok W s' idx t.
Proof.
  intros Hb Ha Hr. unfold task_ok. rewrite Hb, Ha, Hr. done.
Qed.

Lemma Inv_set_task (W : World) (path : string) (s : State) (idx : nat) (t t' : TaskPc) (n : nat) :
  Inv W path s ->
  tasks s !! idx = Some t ->
  t <> TNotStarted -> done t = false -> t' <> TNotStarted ->
  n + (if holding t then 1 else 0) = semaphore s + (if holding t' then 1 else 0) ->
  n <= maxParallel ->
  wrote t' = wrote t ->
  (ctx s = None -> task_ok W s idx t') ->
  Inv W path (set_semaphore (set_task s idx t') n).
Proof.
  intros HI Ht Hns Hnd Hns' Hn Hmax' Hw Hok. inv_destruct HI.
  pose proof (countIf_insert holding _ _ _ t' Ht) as Hc.
  assert (walking (pc s) = false) as Hnw.
  { destruct (walking (pc s)); [|done]. by rewrite Hwalking in Ht. }
  constructor; simpl; rewrite ?length_insert; try done.
  - by rewrite Hnw.
  - intros _. apply Hpaths. intros E. by rewrite E in Ht.
  - lia.
  - destruct (pc s) eqn:Hpc; try done.
    + intros j t0 [(<- & <- & _)|[Hne Hj]]%list_lookup_insert_Some; [|by apply Hdisp].
      split; [done|]. intros Hi. by apply (Hdisp idx t Ht) in Hi.
    + intros j t0 [(<- & <- & _)|[Hne Hj]]%list_lookup_insert_Some; [done|by apply (Hdisp j)].
    + by rewrite (Hdisp idx t Ht) in Hnd.
  - intros Hctx j t0 [(<- & <- & _)|[Hne Hj]]%list_lookup_insert_Some.
    + by apply Hok.
    + by apply (Htasks Hctx j t0 Hj).
  - intros j t0 [(<- & <- & _)|[Hne Hj]]%list_lookup_insert_Some.
    + rewrite Hw. by apply Hwrites.
    + by apply Hwrites.
  - intros rs Hpc. destruct (Hret rs Hpc) as (_ & _ & _ & _ & Hd).
    rewrite (Hd idx t Ht) in Hnd. done.
Qed.

Lemma Inv_task (W : World) (path : string) (s : State) (idx : nat) (s' : State) :
  Inv W path s -> stepTask W idx s = Some s' -> Inv W path s'.
Proof.
  intros HI H. unfold stepTask in H.
  destruct (tasks s !! idx) as [t|] eqn:Ht; [|done].
  destruct (binaryPaths s !! idx) as [fp|] eqn:Hfp; [|done].
  pose proof (inv_sem _ _ _ HI) as Hsem. pose proof (inv_sem_max _ _ _ HI) as Hmax.
  pose proof (countIf_insert holding _ _ _ TBlocked Ht) as Hc.
  destruct t as [| | | |d|r| | |w|w].
  - done.
  - (* TBlocked *)
    destruct (Nat.ltb (semaphore s) maxParallel) eqn:Hlt; [|done]. simplify_eq.
    apply Nat.ltb_lt in Hlt.
    apply (Inv_set_task W path s idx TBlocked); try done; simpl; lia.
  - (* TAcquired *)
    destruct (ctx s) eqn:Hctx; simplify_eq.
    + change (set_task s idx TSkipped) with (set_semaphore (set_task s idx TSkipped) (semaphore s)).
      apply (Inv_set_task W path s idx TAcquired); try done. intros; congruence.
    + change (set_task s idx TChecking) with (set_semaphore (set_task s idx TChecking) (semaphore s)).
      apply (Inv_set_task W path s idx TAcquired); try done.
  - (* TChecking *)
    destruct (checkStatic (ctx s) (buildinfo_ReadFile W fp)) as [early|d] eqn:Hst; simplify_eq.
    + match goal with |- Inv _ _ (set_task s idx ?t) =>
        change (set_task s idx t) with (set_semaphore (set_task s idx t) (semaphore s)) end.
      apply (Inv_set_task W path s idx TChecking); try done.
      intros Hctx. simpl. exists fp. split; [done|].
      unfold candidateReport, checkGoBinaryFIPS. rewrite Hctx in Hst. by rewrite Hst.
    + match goal with |- Inv _ _ (set_task s idx ?t) =>
        change (set_task s idx t) with (set_semaphore (set_task s idx t) (semaphore s)) end.
      apply (Inv_set_task W path s idx TChecking); try done.
      intros Hctx. simpl. exists fp. split; [done|]. by rewrite Hctx in Hst.
  - (* TProbing *)
    simplify_eq.
    match goal with |- Inv _ _ (set_task s idx ?t) =>
      change (set_task s idx t) with (set_semaphore (set_task s idx t) (semaphore s)) end.
    apply (Inv_set_task W path s idx (TProbing d)); try done.
    intros Hctx. simpl. exists fp. split; [done|].
    destruct (inv_tasks _ _ _ HI Hctx idx _ Ht) as (fp' & Hfp' & Hd). simplify_eq.
    unfold candidateReport, checkGoBinaryFIPS. by rewrite Hd.
  - (* TComputed *)
    simplify_eq. clear Hsem Hmax Hc. inv_destruct HI.
    assert (walking (pc s) = false) as Hnw.
    { destruct (walking (pc s)); [|done]. by rewrite Hwalking in Ht. }
    assert (idx < length (reports s)) as Hidx.
    { rewrite Hrep. by apply lookup_lt_Some in Ht. }
    pose proof (countIf_insert holding _ _ _ TWritten Ht) as Hc'. simpl in Hc'.
    constructor; simpl; rewrite ?length_insert, ?length_alter; try done.
    + by rewrite Hnw.
    + intros _. apply Hpaths. intros E. by rewrite E in Ht.
    + lia.
    + destruct (pc s) eqn:Hpc; try done.
      * intros j t0 [(<- & <- & _)|[Hne Hj]]%list_lookup_insert_Some; [|by apply Hdisp].
        split; [done|]. intros Hi. by apply (Hdisp idx _ Ht) in Hi.
      * intros j t0 [(<- & <- & _)|[Hne Hj]]%list_lookup_insert_Some; [done|by apply (Hdisp j)].
      * by pose proof (Hdisp idx _ Ht).
    + intros Hctx j t0 [(<- & <- & _)|[Hne Hj]]%list_lookup_insert_Some.
      * simpl. destruct (Htasks Hctx idx _ Ht) as (fp' & Hfp' & ->).
        exists fp'. split; [done|]. by rewrite list_lookup_insert_eq.
      * apply (task_ok_frame W s); simpl; try done.
        -- by rewrite list_lookup_insert_ne.
        -- by apply Htasks.
    + intros j t0 [(<- & <- & _)|[Hne Hj]]%list_lookup_insert_Some.
      * rewrite list_lookup_alter_eq, (Hwrites idx _ Ht). done.
      * rewrite list_lookup_alter_ne by done. by apply Hwrites.
    + intros rs Hpc. destruct (Hret rs Hpc) as (_ & _ & _ & _ & Hd).
      by pose proof (Hd idx _ Ht).
  - (* TWritten *)
    simplify_eq. apply (Inv_set_task W path s idx TWritten); try done.
    + simpl in *. lia.
    + lia.
    + intros Hctx. by apply (inv_tasks _ _ _ HI Hctx idx _ Ht).
  - (* TSkipped *)
    simplify_eq. apply (Inv_set_task W path s idx TSkipped); try done.
    + simpl in *. lia.
    + lia.
    + intros Hctx. by pose proof (inv_tasks _ _ _ HI Hctx idx _ Ht).
  - (* TReleased *)
    simplify_eq.
    change (set_task s idx (TDone w)) with (set_semaphore (set_task s idx (TDone w)) (semaphore s)).
    apply (Inv_set_task W path s idx (TReleased w)); try done.
    intros Hctx. by pose proof (inv_tasks _ _ _ HI Hctx idx _ Ht).
  - done.
Qed.

Lemma Inv_killed (W : World) (path : string) (s : State) (idx : nat) (o : RunOutcome) (s' : State) :
  Inv W path s -> stepKilled W idx o s = Some s' -> Inv W path s'.
Proof.
  intros HI H. unfold stepKilled in H.
  destruct (ctx s) as [e|] eqn:Hctx; [|done].
  destruct (tasks s !! idx) as [[| | | |d| | | | |]|] eqn:Ht; try done.
  destruct (binaryPaths s !! idx) as [fp|] eqn:Hfp; [|done]. simplify_eq.
  match goal with |- Inv _ _ (set_task s idx ?t) =>
    change (set_task s idx t) with (set_semaphore (set_task s idx t) (semaphore s)) end.
  apply (Inv_set_task W path s idx (TProbing d)); try done.
  - by apply inv_sem_max with W path.
  - intros; congruence.
Qed.

Lemma Inv_step (W : World) (path : string) (l : Label) (s s' : State) :
  Inv W path s -> exec W path l s = Some s' -> Inv W path s'.
Proof.
  intros HI H. destruct l as [e| |idx|idx o]; simpl in H.
  - destruct (ctx s) eqn:Hctx; [done|]. injection H as <-. by apply Inv_cancel.
  - by apply Inv_main with s.
  - by apply Inv_task with s idx.
  - by apply Inv_killed with s idx o.
Qed.

Theorem Inv_reachable (W : World) (path : string) (s : State) :
  reachable W path s -> Inv W path s.
Proof.
  induction 1 as [|s l s' _ IH Hstep]; [apply Inv_init | by apply Inv_step with l s].
Qed.

Lemma run_reachable (W : World) (path : string) (ls : list Label) (s s' : State) :
  reachable W path s -> run W path ls s = Some s' -> reachable W path s'.
Proof.
  revert s. induction ls as [|l ls IH]; intros s Hs H; simpl in H.
  - by injection H as <-.
  - destruct (exec W path l s) as [s1|] eqn:Hl; [|done].
    apply (IH s1); [|done]. by apply reachable_step with s l.
Qed.

Lemma run_app (W : World) (path : string) (ls ls' : list Label) (s : State) :
  run W path (ls ++ ls') s =
  match run W path ls s with Some s1 => run W path ls' s1 | None => None end.
Proof.
  revert s. induction ls as [|l ls IH]; intros s; simpl; [done|].
  by destruct (exec W path l s).
Qed.
Lemma stepTask_pc (W : World) (idx : nat) (s s' : State) :
  stepTask W idx s = Some s' -> pc s' = pc s /\ ctx s' = ctx s /\ binaryPaths s' = binaryPaths s.
Proof.
  unfold stepTask. intros H. repeat case_match; by simplify_eq.
Qed.

Lemma stepKilled_pc (W : World) (idx : nat) (o : RunOutcome) (s s' : State) :
  stepKilled W idx o s = Some s' -> pc s' = pc s.
Proof.
  unfold stepKilled. intros H. repeat case_match; by simplify_eq.
Qed.

(** The ways [Check] returns: a failure of [filepath.Abs], a walk that the
    cancellation aborts, the cancellation seen at the head of the dispatch
    loop, and the final check after [wg.Wait()]. *)
Lemma exec_returns (W : World) (path : string) (l : Label) (s s' : State) (res : CheckResult) :
  exec W path l s = Some s' -> pc s' = MReturned res -> pc s <> MReturned res ->
  l = LMain /\ tasks s' = tasks s /\ ctx s' = ctx s /\ reports s' = reports s /\
  binaryPaths s' = binaryPaths s /\
  ((pc s = MStart /\ exists cause, res = Failed (ErrAbs cause)) \/
   (exists pending e, pc s = MWalk pending /\ ctx s = Some e /\ res = Failed (ErrWalk (ErrCtx e))) \/
   (exists i fp e, pc s = MDispatch i /\ binaryPaths s !! i = Some fp /\
                   ctx s = Some e /\ res = Failed (ErrCtx e)) \/
   (pc s = MFinal /\
    ((exists e, ctx s = Some e /\ res = Failed (ErrCtx e)) \/
     (ctx s = None /\ res = Reports (reports s))))).
Proof.
  intros H Hres Hne. destruct l as [e| |idx|idx o]; simpl in H.
  - destruct (ctx s); simplify_eq. 
  - split; [done|]. unfold stepMain in H.
    destruct (pc s) as [|[|c pending]|i| | |res0] eqn:Hpc.
    + destruct (filepath_Abs W path) as [root|err]; simplify_eq; simpl in *; simplify_eq.
      repeat split; try done. left. split; [done|]. by exists err.
    + simplify_eq.
    + destruct (walkFn W (ctx s) (binaryPaths s) c) as [paths [err|]] eqn:Hfn;
        simplify_eq; simpl in *; simplify_eq.
      destruct (walkFn_error _ _ _ _ _ _ Hfn) as (e & He & -> & Hc).
      repeat split; try done. right. left. by exists (c :: pending), e.
    + destruct (binaryPaths s !! i) as [fp|] eqn:Hfp; [destruct (ctx s) as [e|] eqn:Hctx|];
        simplify_eq; simpl in *; simplify_eq.
      repeat split; try done. right. right. left. by exists i, fp, e.
    + destruct (forallb finished (tasks s)); simplify_eq.
    + destruct (ctx s) as [e|] eqn:Hctx; simplify_eq; simpl in *; simplify_eq;
        (repeat split; try done); right; right; right; (split; [done|]).
      * left. by exists e.
      * by right.
    + done.
  - apply stepTask_pc in H as (Hp & _). congruence.
  - apply stepKilled_pc in H. congruence.
Qed.

(** ** The transition system: what [Check] guarantees *)

Lemma writes_at_most_once (W : World) (path : string) (s : State) (idx n : nat) :
  Inv W path s -> writes s !! idx = Some n -> n <= 1.
Proof.
  intros HI Hn. assert (idx < length (tasks s)) as Hlt.
  { rewrite <- (inv_writes_len _ _ _ HI). by apply lookup_lt_Some in Hn. }
  apply lookup_lt_is_Some in Hlt as [t Ht].
  rewrite (inv_writes _ _ _ HI idx t Ht) in Hn. injection Hn as <-. destruct (wrote t); lia.
Qed.

Lemma returned_writes (W : World) (path : string) (s : State) (rs : list BinaryReport) :
  Inv W path s -> pc s = MReturned (Reports rs) -> writes s = replicate (length rs) 1.
Proof.
  intros HI Hpc. destruct (inv_returned _ _ _ HI rs Hpc) as (_ & _ & _ & Hlen & Hdone).
  apply list_eq. intros i. destruct (tasks s !! i) as [t|] eqn:Ht.
  - rewrite (inv_writes _ _ _ HI i t Ht), (Hdone i t Ht). simpl. symmetry.
    apply lookup_replicate. split; [done|]. rewrite <- Hlen. by apply lookup_lt_Some in Ht.
  - apply lookup_ge_None in Ht.
    rewrite (proj2 (lookup_ge_None (writes s) i)) by (rewrite (inv_writes_len _ _ _ HI); lia).
    symmetry. apply lookup_ge_None. rewrite length_replicate. lia.
Qed.

Lemma expectedReports_lookup (W : World) (root : string) (i : nat) (fp : string) :
  candidates W root !! i = Some fp ->
  expectedReports W root !! i = Some (candidateReport W root fp).
Proof. intros H. unfold expectedReports. by rewrite list_lookup_fmap, H. Qed.

(** ** The paths of a walk *)

(** Induction over a file tree, with the property at every entry of a
    directory. *)
Lemma FsNode_tree_ind (P : FsNode -> Prop) :
  P FsFile ->
  (forall readErr entries, Forall (fun e => P (snd e)) entries -> P (FsDir readErr entries)) ->
  forall d, P d.
Proof.
  intros Hf Hd. fix IH 1. intros [|readErr entries]; [exact Hf|].
  apply Hd. induction entries as [|[name d1] entries IHe]; constructor; [apply IH | exact IHe].
Qed.

Lemma walkDir_FsDir (path : string) (readErr : option error)
    (entries : list (string * FsNode)) :
  walkDir path (FsDir readErr entries) =
  mkCall path true None ::
  match readErr with
  | Some err => [mkCall path true (Some err)]
  | None => []
  end ++ flat_map (fun e => walkDir (Join path (fst e)) (snd e)) entries.
Proof.
  simpl. do 2 f_equal.
  induction entries as [|[name d1] entries IHe]; [done|]. simpl. by rewrite IHe.
Qed.

Lemma wellListed_FsDir (readErr : option error) (entries : list (string * FsNode)) :
  wellListed (FsDir readErr entries) = true ->
  Forall (fun e => plainName (fst e) = true /\ wellListed (snd e) = true) entries /\
  distinct (map fst entries) = true.
Proof.
  simpl. intros [[Hp Hd]%andb_true_iff Hw]%andb_true_iff. split; [|done].
  rewrite forallb_forall in Hp, Hw. apply Forall_forall. intros [name d1] Hin%list_elem_of_In. split.
  - apply Hp. apply in_map_iff. by exists (name, d1).
  - by apply (Hw (name, d1)).
Qed.

Lemma distinct_cons (name : string) (names : list string) :
  distinct (name :: names) = true -> (name ∉ names) /\ distinct names = true.
Proof.
  simpl. intros [Hn Hd]%andb_true_iff. split; [|done].
  intros Hin%list_elem_of_In. apply negb_true_iff in Hn.
  assert (existsb (String.eqb name) names = true) as Ht; [|congruence].
  apply existsb_exists. exists name. split; [done | apply String.eqb_refl].
Qed.

Lemma plainName_spec (name : string) :
  plainName name = true -> name <> ""%string /\ Contains name "/" = false.
Proof.
  unfold plainName. intros [Hn Hc]%andb_true_iff. split.
  - apply negb_true_iff, String.eqb_neq in Hn. done.
  - by apply negb_true_iff in Hc.
Qed.

(** [Join] puts the name behind a separator, and never gives the root of the
    file system. *)
Lemma Join_append (path name : string) :
  Join path name = ((if String.eqb path "/" then "/" else path +:+ "/") +:+ name)%string.
Proof. unfold Join. destruct (String.eqb path "/"); [done|]. by rewrite append_assoc. Qed.

Lemma Join_not_root (path name : string) :
  name <> ""%string -> String.eqb (Join path name) "/" = false.
Proof.
  intros Hn. apply String.eqb_neq. unfold Join.
  destruct (String.eqb path "/"); destruct name as [|a name]; try done.
  destruct path as [|b path]; [done|]. simpl. intros [= _ E]. by destruct path.
Qed.

Lemma append_cancel_l (k a b : string) : (k +:+ a = k +:+ b)%string -> a = b.
Proof. induction k as [|x k IH]; simpl; [done|]. intros [= H]. by apply IH. Qed.

(** Every call of the walk below an entry is made on the entry's path or on
    that path followed by a separator. *)
Lemma walkDir_below (d : FsNode) :
  forall (path name : string) (c : WalkCall),
    wellListed d = true -> name <> ""%string -> c ∈ walkDir (Join path name) d ->
    exists rest, call_path c = (Join path name +:+ rest)%string /\
                 (rest = ""%string \/ exists r, rest = ("/" +:+ r)%string).
Proof.
  induction d as [|readErr entries IH] using FsNode_tree_ind; intros path name c Hw Hn Hin.
  - apply list_elem_of_singleton in Hin as ->. exists ""%string.
    split; [by rewrite append_empty_r | by left].
  - rewrite walkDir_FsDir in Hin. apply elem_of_cons in Hin as [->|Hin].
    { exists ""%string. split; [by rewrite append_empty_r | by left]. }
    apply elem_of_app in Hin as [Hin|Hin].
    { destruct readErr; [|by apply not_elem_of_nil in Hin].
      apply list_elem_of_singleton in Hin as ->.
      exists ""%string. split; [by rewrite append_empty_r | by left]. }
    apply list_elem_of_In, in_flat_map in Hin as ([m d1] & Hm%list_elem_of_In & Hc%list_elem_of_In).
    simpl in Hc. apply wellListed_FsDir in Hw as [Hw _].
    rewrite Forall_forall in IH, Hw.
    destruct (Hw _ Hm) as [[Hne _]%plainName_spec Hw1]; simpl in *.
    destruct (IH _ Hm (Join path name) m c Hw1 Hne Hc) as (rest & Hrest & _).
    exists ("/" +:+ m +:+ rest)%string. split; [|right; by eexists].
    rewrite Hrest. unfold Join at 1. rewrite (Join_not_root path name Hn).
    by rewrite !append_assoc.
Qed.

(** Two names without a separator that begin the same path are equal. *)
Lemma plainName_segment (n m rest rest' : string) :
  Contains n "/" = false -> Contains m "/" = false ->
  (rest = ""%string \/ exists r, rest = ("/" +:+ r)%string) ->
  (rest' = ""%string \/ exists r, rest' = ("/" +:+ r)%string) ->
  (n +:+ rest = m +:+ rest')%string -> n = m.
Proof.
  revert m. induction n as [|a n IH]; intros [|b m] Hn Hm Hr Hr' H; simpl in *.
  - done.
  - apply orb_false_iff in Hm as [Hb _]. rewrite andb_true_r in Hb.
    apply Ascii.eqb_neq in Hb. destruct Hr as [->|[r ->]]; [done|].
    simpl in H. by injection H as <- _.
  - apply orb_false_iff in Hn as [Ha _]. rewrite andb_true_r in Ha.
    apply Ascii.eqb_neq in Ha. destruct Hr' as [->|[r ->]]; [done|].
    simpl in H. by injection H as -> _.
  - injection H as -> H. f_equal.
    apply orb_false_iff in Hn as [_ Hn]. apply orb_false_iff in Hm as [_ Hm].
    by apply IH.
Qed.

(** The walk of a tree calls the function on every file once: the paths of
    its calls on files are distinct. *)
Lemma walkDir_files_NoDup (f : WalkCall -> bool) (d : FsNode) :
  (forall c, f c = true -> call_IsDir c = false) ->
  forall path, wellListed d = true ->
    NoDup (map call_path (List.filter f (walkDir path d))).
Proof.
  intros Hf. induction d as [|readErr entries IH] using FsNode_tree_ind; intros path Hw.
  - simpl. destruct (f _); [apply NoDup_singleton | apply NoDup_nil_2].
  - rewrite walkDir_FsDir. simpl.
    destruct (f (mkCall path true None)) eqn:E; [by apply Hf in E|].
    rewrite List.filter_app.
    assert (List.filter f match readErr with
                          | Some err => [mkCall path true (Some err)]
                          | None => []
                          end = []) as ->.
    { destruct readErr as [err|]; [|done]. simpl.
      destruct (f (mkCall path true (Some err))) eqn:E'; [by apply Hf in E'|done]. }
    simpl. apply wellListed_FsDir in Hw as [Hw Hd].
    induction entries as [|[name d1] entries IHe]; [apply NoDup_nil_2|].
    apply Forall_cons in IH as [IH1 IH]. apply Forall_cons in Hw as [[Hp1 Hw1] Hw].
    apply distinct_cons in Hd as [Hnotin Hd]. simpl in *.
    rewrite List.filter_app, map_app. apply NoDup_app. split; [by apply IH1|].
    split; [|by apply IHe].
    intros x Hx Hx'.
    apply list_elem_of_In, in_map_iff in Hx as (c & <- & [Hc _]%filter_In).
    apply list_elem_of_In, in_map_iff in Hx' as (c' & Hcc & [Hc' _]%filter_In).
    apply in_flat_map in Hc' as ([m d2] & Hm & Hc'); simpl in Hc'.
    rewrite Forall_forall in Hw. destruct (Hw _ (proj2 (list_elem_of_In _ _) Hm)) as [Hp2 Hw2].
    simpl in *.
    apply plainName_spec in Hp1 as [Hne1 Hs1]. apply plainName_spec in Hp2 as [Hne2 Hs2].
    destruct (walkDir_below d1 path name c Hw1 Hne1) as (rest & Hrest & Hr).
    { by apply list_elem_of_In. }
    destruct (walkDir_below d2 path m c' Hw2 Hne2) as (rest' & Hrest' & Hr').
    { by apply list_elem_of_In. }
    rewrite Hrest, Hrest', !Join_append, !append_assoc in Hcc.
    apply append_cancel_l in Hcc.
    apply Hnotin. rewrite (plainName_segment name m rest rest' Hs1 Hs2 Hr Hr'); [|done].
    apply list_elem_of_In, in_map_iff. by exists (m, d2).
Qed.

Lemma discover_accepted (W : World) (calls : list WalkCall) (acc : list string) :
  discover W calls acc = acc ++ map call_path (List.filter (accepted W) calls).
Proof.
  revert acc. induction calls as [|c calls IH]; intros acc; simpl.
  - by rewrite app_nil_r.
  - change (discover W (c :: calls) acc)
      with (discover W calls (fst (walkFn W None acc c))).
    rewrite IH. unfold walkFn, accepted.
    destruct (call_err c); simpl; [done|].
    destruct (call_IsDir c); simpl; [done|].
    destruct (shouldExcludePath (call_path c)); simpl; [done|].
    destruct (isBinary W (call_path c)); simpl; [|done].
    by rewrite <- app_assoc.
Qed.

(** No path is discovered twice in a tree that lists no name twice. *)
Lemma candidates_NoDup (W : World) (root : string) :
  rootWellListed W root = true -> NoDup (candidates W root).
Proof.
  unfold rootWellListed, candidates, WalkDir. intros Hw. rewrite discover_accepted. simpl.
  destruct (os_Lstat W root) as [d|err]; [|simpl; apply NoDup_nil_2].
  apply walkDir_files_NoDup; [|done].
  unfold accepted. intros c Hc. destruct (call_err c); [done|]. by destruct (call_IsDir c).
Qed.

(** C7.  A scan that returns reports returns exactly one per discovered
    candidate, the report of the i-th candidate at index i, whatever the
    order in which the tasks ran and completed; no slot is ever assigned
    twice, and at the return every slot has been assigned once.  No
    candidate appears twice: in a tree whose directories list file names,
    and no name twice, as [os.ReadDir] delivers them, the discovered paths
    are distinct, so that no two slots hold the report of the same path. *)
Theorem Check_reports_in_discovery_order (W : World) (path : string) (s : State) :
  reachable W path s ->
  (forall idx n, writes s !! idx = Some n -> n <= 1) /\
  (forall rs, pc s = MReturned (Reports rs) ->
     exists root,
       filepath_Abs W path = inl root /\
       rs = map (candidateReport W root) (candidates W root) /\
       length rs = length (candidates W root) /\
       (forall i fp, candidates W root !! i = Some fp ->
          exists r, rs !! i = Some r /\ r = candidateReport W root fp /\
                    RelativePath r = relPathOf W root fp /\ Type_ r = "gobinary"%string) /\
       writes s = replicate (length rs) 1 /\
       (rootWellListed W root = true ->
          NoDup (candidates W root) /\
          forall i j fp, candidates W root !! i = Some fp ->
                         candidates W root !! j = Some fp -> i = j)).
Proof.
  intros HI%Inv_reachable. split.
  - intros idx n. by apply writes_at_most_once with W path.
  - intros rs Hpc. destruct (inv_returned _ _ _ HI rs Hpc) as (Habs & -> & _ & _ & _).
    exists (absRoot s). split; [done|]. split; [done|]. split; [|split; [|split]].
    + unfold expectedReports. by rewrite length_map.
    + intros i fp Hi. exists (candidateReport W (absRoot s) fp).
      split; [by apply expectedReports_lookup | done].
    + by apply returned_writes with W path.
    + intros Hw%candidates_NoDup. split; [done|].
      intros i j fp. by apply NoDup_lookup.
Qed.


(** C5.  In the reports a scan returns, a candidate whose build information
    cannot be read has a report of its own that carries the error and the
    zero details (nothing extracted, no probe result), and the report of
    every candidate is the function of what the world answers about that
    candidate alone.  No such failure is the error of the scan: when [Check]
    fails, it is on [filepath.Abs] or on the cancellation of the context. *)
Theorem Check_isolates_extraction_error (W : World) (path : string) (s : State) :
  reachable W path s ->
  (forall rs, pc s = MReturned (Reports rs) ->
     exists root,
       filepath_Abs W path = inl root /\
       length rs = length (candidates W root) /\
       forall i fp, candidates W root !! i = Some fp ->
         rs !! i = Some (buildReport (relPathOf W root fp)
                           (checkGoBinaryFIPS None (buildinfo_ReadFile W fp) (cmd_Run W fp))) /\
         forall err, buildinfo_ReadFile W fp = inr err ->
           rs !! i = Some (mkReport (relPathOf W root fp) "gobinary" zeroDetails
                             (Some (ErrReadBuildInfo err)))) /\
  (forall err, pc s = MReturned (Failed err) ->
     (exists cause, err = ErrAbs cause) \/
     (exists e, ctx s = Some e /\ (err = ErrCtx e \/ err = ErrWalk (ErrCtx e)))).
Proof.
  intros HI%Inv_reachable. split.
  - intros rs Hpc. destruct (inv_returned _ _ _ HI rs Hpc) as (Habs & -> & _ & _ & _).
    exists (absRoot s). split; [done|]. split.
    + unfold expectedReports. by rewrite length_map.
    + intros i fp Hi. rewrite (expectedReports_lookup _ _ _ _ Hi). split; [done|].
      intros err Herr. unfold candidateReport, checkGoBinaryFIPS. by rewrite Herr.
  - intros err Hpc.
    destruct (inv_failed _ _ _ HI err Hpc)
      as [(cause & _ & ->)|[(e & call & He & _ & -> & _)|(e & He & _ & ->)]].
    + left. by exists cause.
    + right. exists e. split; [done | by right].
    + right. exists e. split; [done | by left].
Qed.

(** C8.  At every point of every run the tasks inside [cmd.Run()] are among
    the tasks that hold a token, the tokens held are those in the semaphore,
    and the semaphore holds at most [maxParallel = 10]; a task enters its
    check only from the state in which it has acquired a token, and no task
    holds one once [Check] has returned reports. *)
Theorem Check_bounded_parallelism (W : World) (path : string) (s : State) :
  reachable W path s ->
  countIf probing (tasks s) <= countIf holding (tasks s) /\
  countIf holding (tasks s) = semaphore s /\
  semaphore s <= maxParallel /\
  maxParallel = 10 /\
  (forall idx s', stepTask W idx s = Some s' ->
     forall t', tasks s' !! idx = Some t' -> holding t' = true ->
       exists t, tasks s !! idx = Some t /\
         (holding t = true \/
          (t = TBlocked /\ semaphore s < maxParallel /\ semaphore s' = S (semaphore s)))) /\
  (forall idx s' t, stepTask W idx s = Some s' -> tasks s !! idx = Some t ->
     holding t = true -> forall t', tasks s' !! idx = Some t' -> holding t' = false ->
     S (semaphore s') = semaphore s) /\
  (forall rs, pc s = MReturned (Reports rs) -> semaphore s = 0).
Proof.
  intros HI%Inv_reachable.
  split; [by apply countIf_le; intros []|].
  split; [by rewrite (inv_sem _ _ _ HI)|].
  split; [by apply inv_sem_max with W path|].
  split; [done|]. split; [|split].
  - intros idx s' H t' Ht' Hh. unfold stepTask in H.
    destruct (tasks s !! idx) as [t|] eqn:Ht; [|done]. exists t. split; [done|].
    assert (idx < length (tasks s)) as Hlt by (by apply lookup_lt_Some in Ht).
    destruct (binaryPaths s !! idx) as [fp|]; [|done].
    destruct t; try done; try (by left).
    + destruct (Nat.ltb (semaphore s) maxParallel) eqn:Hlt'; [|done]. simplify_eq.
      right. by apply Nat.ltb_lt in Hlt'.
    + simplify_eq. simpl in Ht'. rewrite list_lookup_insert_eq in Ht' by done.
      by simplify_eq.
  - intros idx s' t H Ht Hh t' Ht' Hh'. unfold stepTask in H. rewrite Ht in H.
    assert (idx < length (tasks s)) as Hlt by (by apply lookup_lt_Some in Ht).
    pose proof (countIf_insert holding _ _ _ TBlocked Ht) as Hc. rewrite Hh in Hc.
    pose proof (inv_sem _ _ _ HI) as Hsem.
    destruct (binaryPaths s !! idx) as [fp|]; [|done].
    destruct t; try done; repeat case_match; simplify_eq; simpl in *;
      rewrite list_lookup_insert_eq in Ht' by done; simplify_eq; try done; lia.
  - intros rs Hpc. destruct (inv_returned _ _ _ HI rs Hpc) as (_ & _ & _ & _ & Hdone).
    rewrite (inv_sem _ _ _ HI). clear -Hdone.
    induction (tasks s) as [|t l IH]; simpl; [done|].
    rewrite (Hdone 0 t eq_refl). simpl. apply IH. intros j t' Hj. by apply (Hdone (S j)).
Qed.

(** C2, as amended.  The caller receives either the complete collection,
    one report per candidate with every task done, or an error and no
    report.  [Check] returns in one of three ways only: before any task
    exists (on [filepath.Abs] or on a cancelled walk); from the head of the
    dispatch loop, when it sees the cancellation before it dispatches the
    next candidate, at once and without waiting for the tasks it has already
    dispatched; or after [wg.Wait()], which lets it pass only when every
    task is done, and then with the cancellation error if the context is
    cancelled by then and with the complete collection otherwise. *)
Theorem Check_cancellation_all_or_nothing (W : World) (path : string) (s : State) :
  reachable W path s ->
  (forall res, pc s = MReturned res ->
     (exists root,
        filepath_Abs W path = inl root /\ res = Reports (expectedReports W root) /\
        forall j t, tasks s !! j = Some t -> t = TDone true) \/
     (exists err, res = Failed err)) /\
  (forall l s' res,
     exec W path l s = Some s' -> pc s' = MReturned res -> pc s <> MReturned res ->
     l = LMain /\
     ((pc s = MFinal /\
       length (tasks s') = length (binaryPaths s') /\
       (forall j t, tasks s' !! j = Some t -> done t = true) /\
       ((exists e, ctx s = Some e /\ res = Failed (ErrCtx e)) \/
        (ctx s = None /\ exists root, res = Reports (expectedReports W root)))) \/
      (exists i e,
         pc s = MDispatch i /\ i < length (binaryPaths s) /\
         ctx s = Some e /\ res = Failed (ErrCtx e)) \/
      (walking (pc s) = true /\ tasks s' = [] /\ exists err, res = Failed err))) /\
  (forall s', pc s = MWait -> stepMain W path s = Some s' ->
     pc s' = MFinal /\ forall j t, tasks s' !! j = Some t -> done t = true).
Proof.
  intros Hreach. pose proof (Inv_reachable _ _ _ Hreach) as HI. split; [|split].
  - intros [rs|err] Hpc; [left | right; by exists err].
    destruct (inv_returned _ _ _ HI rs Hpc) as (Habs & -> & _ & _ & Hdone).
    by exists (absRoot s).
  - intros l s' res Hstep Hres Hne.
    assert (Inv W path s') as HI' by (by apply Inv_step with l s).
    destruct (exec_returns _ _ _ _ _ _ Hstep Hres Hne)
      as (-> & Ht & Hc & Hr & Hb & Hcase).
    split; [done|].
    destruct Hcase as [[Hpc (cause & ->)]|[(pending & e & Hpc & _ & ->)|
                      [(i & fp & e & Hpc & Hfp & He & ->)|[Hpc Hfin]]]].
    + right. right. rewrite Hpc, Ht. split; [done|].
      split; [by apply (inv_walking _ _ _ HI); rewrite Hpc | by eexists].
    + right. right. rewrite Hpc, Ht. split; [done|].
      split; [by apply (inv_walking _ _ _ HI); rewrite Hpc | by eexists].
    + right. left. exists i, e. split; [done|]. split; [by apply lookup_lt_Some in Hfp|done].
    + left. split; [done|]. rewrite Ht, Hb.
      split; [by apply (inv_alloc _ _ _ HI); rewrite Hpc|]. split.
      * pose proof (inv_dispatch _ _ _ HI) as Hd. by rewrite Hpc in Hd.
      * destruct Hfin as [(e & He & ->)|[Hnone ->]]; [left; by exists e | right].
        split; [done|]. exists (absRoot s').
        by destruct (inv_returned _ _ _ HI' _ Hres) as (_ & <- & _).
  - intros s' Hpc Hs'.
    assert (Inv W path s') as HI' by (by apply Inv_step with LMain s).
    unfold stepMain in Hs'. rewrite Hpc in Hs'.
    destruct (forallb finished (tasks s)); simplify_eq. split; [done|].
    pose proof (inv_dispatch _ _ _ HI') as Hd. done.
Qed.

Lemma candidates_missing_root (W : World) (root : string) (err : error) :
  os_Lstat W root = inr err -> WalkDir W root = [mkCall root false (Some err)] /\
                               candidates W root = [].
Proof. intros H. unfold candidates, WalkDir. by rewrite H. Qed.

(** C9, as amended.  When [filepath.Abs] gives the absolute root and
    [os.Lstat] fails on it (it does not exist, or cannot be examined), the
    walk function skips the one call it gets, the walk ends without an error
    and there is no candidate: [Check] never returns a walk error.  It
    returns the empty collection and no error, unless the context is done by
    its last check, in which case it returns the cancellation error.  A root
    directory that exists and cannot be listed ([os.ReadDir] fails without
    an entry) gives the empty collection too, but the walk error when the
    context is done at the first call of the walk function, which comes
    without an error.  When [filepath.Abs] fails, [Check] returns that
    error, wrapped, whatever the context. *)
Theorem Check_missing_root (W : World) (path : string) :
  (forall root err, filepath_Abs W path = inl root -> os_Lstat W root = inr err ->
     WalkDir W root = [mkCall root false (Some err)] /\
     candidates W root = [] /\
     (exists s, run W path (replicate 6 LMain) init = Some s /\
                pc s = MReturned (Reports [])) /\
     (forall e, exists s,
        run W path (replicate 6 LMain ++ [LCancel e]) init = Some s /\
        pc s = MReturned (Reports [])) /\
     (forall e, exists s,
        run W path (LCancel e :: replicate 6 LMain) init = Some s /\
        pc s = MReturned (Failed (ErrCtx e))) /\
     (forall s res, reachable W path s -> pc s = MReturned res ->
        res = Reports [] \/ exists e, ctx s = Some e /\ res = Failed (ErrCtx e))) /\
  (forall root err, filepath_Abs W path = inl root ->
     os_Lstat W root = inl (FsDir (Some err) []) ->
     WalkDir W root = [mkCall root true None; mkCall root true (Some err)] /\
     candidates W root = [] /\
     (exists s, run W path (replicate 7 LMain) init = Some s /\
                pc s = MReturned (Reports [])) /\
     (forall e, exists s,
        run W path [LCancel e; LMain; LMain] init = Some s /\
        pc s = MReturned (Failed (ErrWalk (ErrCtx e)))) /\
     (forall s res, reachable W path s -> pc s = MReturned res ->
        res = Reports [] \/
        exists e, ctx s = Some e /\
                  (res = Failed (ErrWalk (ErrCtx e)) \/ res = Failed (ErrCtx e)))) /\
  (forall cause, filepath_Abs W path = inr cause ->
     (exists s, run W path [LMain] init = Some s /\
                pc s = MReturned (Failed (ErrAbs cause))) /\
     (forall e, exists s,
        run W path [LCancel e; LMain] init = Some s /\
        pc s = MReturned (Failed (ErrAbs cause))) /\
     (forall s res, reachable W path s -> pc s = MReturned res ->
        res = Failed (ErrAbs cause))).
Proof.
  split; [|split].
  - intros root err Habs Hl. destruct (candidates_missing_root W root err Hl) as [Hw Hc].
    split; [done|]. split; [done|]. split; [|split; [|split]].
    + eexists. simpl. unfold stepMain at 1. simpl. rewrite Habs.
      unfold stepMain at 1. simpl. rewrite Hw. simpl. done.
    + intros e. eexists. simpl. unfold stepMain at 1. simpl. rewrite Habs.
      unfold stepMain at 1. simpl. rewrite Hw. simpl. done.
    + intros e. eexists. simpl. unfold stepMain at 1. simpl. rewrite Habs.
      unfold stepMain at 1. simpl. rewrite Hw. simpl. done.
    + intros s [rs|e] HI%Inv_reachable Hpc.
      * left. destruct (inv_returned _ _ _ HI rs Hpc) as (Ha & -> & _).
        rewrite Habs in Ha. injection Ha as <-. unfold expectedReports. by rewrite Hc.
      * right. destruct (inv_failed _ _ _ HI e Hpc)
          as [(cause & Ha & _)|[(c & call & _ & Ha & _ & Hin & Hnone)|(c & Hctx & _ & ->)]].
        -- congruence.
        -- rewrite Habs in Ha. injection Ha as Ha. rewrite <- Ha, Hw in Hin.
           apply list_elem_of_singleton in Hin as ->. done.
        -- by exists c.
  - intros root err Habs Hl.
    assert (WalkDir W root = [mkCall root true None; mkCall root true (Some err)]) as Hw.
    { unfold WalkDir. by rewrite Hl. }
    assert (candidates W root = []) as Hc by (unfold candidates; by rewrite Hw).
    split; [done|]. split; [done|]. split; [|split].
    + eexists. simpl. unfold stepMain at 1. simpl. rewrite Habs.
      unfold stepMain at 1. simpl. rewrite Hw. simpl. done.
    + intros e. eexists. simpl. unfold stepMain at 1. simpl. rewrite Habs.
      unfold stepMain at 1. simpl. rewrite Hw. simpl. done.
    + intros s [rs|e] HI%Inv_reachable Hpc.
      * left. destruct (inv_returned _ _ _ HI rs Hpc) as (Ha & -> & _).
        rewrite Habs in Ha. injection Ha as <-. unfold expectedReports. by rewrite Hc.
      * right. destruct (inv_failed _ _ _ HI e Hpc)
          as [(cause & Ha & _)|[(c & call & Hctx & _ & -> & _)|(c & Hctx & _ & ->)]].
        -- congruence.
        -- exists c. split; [done | by left].
        -- exists c. split; [done | by right].
  - intros cause Habs. split; [|split].
    + eexists. simpl. unfold stepMain. simpl. rewrite Habs. done.
    + intros e. eexists. simpl. unfold stepMain. simpl. rewrite Habs. done.
    + intros s [rs|e] HI%Inv_reachable Hpc.
      * destruct (inv_returned _ _ _ HI rs Hpc) as (Ha & _). congruence.
      * destruct (inv_failed _ _ _ HI e Hpc)
          as [(cause' & Ha & ->)|[(c & call & _ & Ha & _)|(c & _ & Ha & _)]];
          congruence.
Qed.

(** ** The demo world: witnesses and counterexamples *)

Lemma Demo_reachable (path : string) (schedule : list Label) (s : State) :
  run Demo.world path schedule init = Some s -> reachable Demo.world path s.
Proof. apply run_reachable. apply reachable_init. Qed.

(** C6, counterexample.  Build settings that contain [CGO_ENABLED=1] and for
    which [CGOEnabled] is false: a later [CGO_ENABLED=0] overwrites it. *)
Lemma CGOEnabled_last_setting_wins :
  ~ (CGOEnabled (fst (checkGoBinaryFIPS None (inl Demo.twiceCGO) Demo.timedOut)) = true <->
     buildinfo.mkSetting "CGO_ENABLED" "1" ∈ buildinfo.Settings Demo.twiceCGO).
Proof.
  intros [_ H]. assert (false = true) as Hf; [|done].
  apply H. apply list_elem_of_here.
Qed.

(** C7, witness: the three tasks of the demo world complete in the opposite
    order of their discovery; its tree lists no name twice and its
    candidates are distinct. *)
Lemma Check_reports_in_discovery_order_witness :
  exists rs,
    pc (Demo.after "/rootfs" Demo.reversed) = MReturned (Reports rs) /\
    rs = map (candidateReport Demo.world "/rootfs") (candidates Demo.world "/rootfs") /\
    writes (Demo.after "/rootfs" Demo.reversed) = replicate (length rs) 1 /\
    rootWellListed Demo.world "/rootfs" = true /\
    NoDup (candidates Demo.world "/rootfs").
Proof.
  assert (reachable Demo.world "/rootfs" (Demo.after "/rootfs" Demo.reversed)) as Hr.
  { apply Demo_reachable with Demo.reversed. vm_compute. reflexivity. }
  assert (pc (Demo.after "/rootfs" Demo.reversed)
          = MReturned (Reports (expectedReports Demo.world "/rootfs"))) as Hpc.
  { vm_compute. reflexivity. }
  assert (rootWellListed Demo.world "/rootfs" = true) as Hl.
  { vm_compute. reflexivity. }
  destruct (Check_reports_in_discovery_order _ _ _ Hr) as [_ Hret].
  destruct (Hret _ Hpc) as (root & Habs & Hrs & _ & _ & Hw & Hnd).
  simpl in Habs. injection Habs as <-.
  exists (expectedReports Demo.world "/rootfs").
  split; [exact Hpc|]. split; [exact Hrs|]. split; [exact Hw|].
  split; [exact Hl | exact (proj1 (Hnd Hl))].
Defined.

(** A listing with the same name twice, which [os.ReadDir] does not deliver,
    is walked twice over that name: the file is discovered twice. *)
Example candidates_listed_twice :
  let W := mkWorld (fun p => inl p) (fun _ p => inl p)
             (fun _ => inl (FsDir None [("app", FsFile); ("app", FsFile)]))
             (fun _ => inl 493%N) (fun _ => None) (fun _ => None)
             (fun _ => inl Demo.info) (fun _ => Demo.timedOut) in
  rootWellListed W "/rootfs" = false /\
  candidates W "/rootfs" = ["/rootfs/app"; "/rootfs/app"]%string.
Proof. vm_compute. done. Qed.

(** C5, witness: [bin/broken] among the three candidates of the demo world. *)
Lemma Check_isolates_extraction_error_witness :
  exists rs,
    pc (Demo.after "/rootfs" Demo.inOrder) = MReturned (Reports rs) /\
    rs !! 1 = Some (mkReport "bin/broken" "gobinary" zeroDetails
                      (Some (ErrReadBuildInfo (ErrOS "unexpected EOF")))) /\
    rs !! 0 = Some (candidateReport Demo.world "/rootfs" "/rootfs/bin/app") /\
    rs !! 2 = Some (candidateReport Demo.world "/rootfs" "/rootfs/bin/tool").
Proof.
  assert (reachable Demo.world "/rootfs" (Demo.after "/rootfs" Demo.inOrder)) as Hr.
  { apply Demo_reachable with Demo.inOrder. vm_compute. reflexivity. }
  assert (pc (Demo.after "/rootfs" Demo.inOrder)
          = MReturned (Reports (expectedReports Demo.world "/rootfs"))) as Hpc.
  { vm_compute. reflexivity. }
  assert (candidates Demo.world "/rootfs"
          = ["/rootfs/bin/app"; "/rootfs/bin/broken"; "/rootfs/bin/tool"]) as Hc.
  { vm_compute. reflexivity. }
  destruct (Check_isolates_extraction_error _ _ _ Hr) as [Hret _].
  destruct (Hret _ Hpc) as (root & Habs & _ & Hall).
  simpl in Habs. injection Habs as <-. rewrite Hc in Hall.
  exists (expectedReports Demo.world "/rootfs").
  split; [exact Hpc|]. split; [|split].
  - exact (proj2 (Hall 1 "/rootfs/bin/broken" eq_refl) (ErrOS "unexpected EOF") eq_refl).
  - exact (proj1 (Hall 0 "/rootfs/bin/app" eq_refl)).
  - exact (proj1 (Hall 2 "/rootfs/bin/tool" eq_refl)).
Defined.

(** C8, witness: two probes of the demo world run at the same time. *)
Lemma Check_bounded_parallelism_witness :
  countIf probing (tasks (Demo.after "/rootfs" Demo.twoProbes)) = 2 /\
  semaphore (Demo.after "/rootfs" Demo.twoProbes) = 2 /\
  countIf probing (tasks (Demo.after "/rootfs" Demo.twoProbes))
    <= countIf holding (tasks (Demo.after "/rootfs" Demo.twoProbes)) /\
  countIf holding (tasks (Demo.after "/rootfs" Demo.twoProbes))
    = semaphore (Demo.after "/rootfs" Demo.twoProbes) /\
  semaphore (Demo.after "/rootfs" Demo.twoProbes) <= maxParallel.
Proof.
  assert (reachable Demo.world "/rootfs" (Demo.after "/rootfs" Demo.twoProbes)) as Hr.
  { apply Demo_reachable with Demo.twoProbes. vm_compute. reflexivity. }
  destruct (Check_bounded_parallelism _ _ _ Hr) as (H1 & H2 & H3 & _).
  split; [vm_compute; reflexivity|]. split; [vm_compute; reflexivity|].
  split; [exact H1|]. split; [exact H2 | exact H3].
Defined.

(** C2, counterexample.  The context is cancelled while the first task
    runs its probe; [Check] returns the cancellation error from the dispatch
    loop while that task is still running, and the task goes on after the
    return. *)
Lemma Check_returns_without_waiting :
  run Demo.world "/rootfs" Demo.cancelledInLoop init
    = Some (Demo.after "/rootfs" Demo.cancelledInLoop) /\
  pc (Demo.after "/rootfs" Demo.cancelledInLoop) = MReturned (Failed (ErrCtx Canceled)) /\
  (exists details, tasks (Demo.after "/rootfs" Demo.cancelledInLoop) !! 0
                   = Some (TProbing details)) /\
  (exists s', stepTask Demo.world 0 (Demo.after "/rootfs" Demo.cancelledInLoop) = Some s' /\
              pc s' = MReturned (Failed (ErrCtx Canceled))).
Proof.
  split; [vm_compute; reflexivity|]. split; [vm_compute; reflexivity|].
  split; [eexists; vm_compute; reflexivity|].
  eexists. split; vm_compute; reflexivity.
Qed.

(** C2, witness: the context is cancelled after the last dispatch; [Check]
    has waited for the three tasks and returns the cancellation error. *)
Lemma Check_cancellation_all_or_nothing_witness :
  pc (Demo.after "/rootfs" Demo.cancelledInWait) = MFinal /\
  (forall j t, tasks (Demo.after "/rootfs" (Demo.cancelledInWait ++ [LMain])) !! j = Some t ->
               done t = true) /\
  pc (Demo.after "/rootfs" (Demo.cancelledInWait ++ [LMain]))
    = MReturned (Failed (ErrCtx Canceled)).
Proof.
  assert (reachable Demo.world "/rootfs" (Demo.after "/rootfs" Demo.cancelledInWait)) as Hr.
  { apply Demo_reachable with Demo.cancelledInWait. vm_compute. reflexivity. }
  destruct (Check_cancellation_all_or_nothing _ _ _ Hr) as (_ & Hstep & _).
  assert (exec Demo.world "/rootfs" LMain (Demo.after "/rootfs" Demo.cancelledInWait)
          = Some (Demo.after "/rootfs" (Demo.cancelledInWait ++ [LMain]))) as Hexec.
  { vm_compute. reflexivity. }
  assert (pc (Demo.after "/rootfs" (Demo.cancelledInWait ++ [LMain]))
          = MReturned (Failed (ErrCtx Canceled))) as Hpc.
  { vm_compute. reflexivity. }
  assert (pc (Demo.after "/rootfs" Demo.cancelledInWait) = MFinal) as Hfinal.
  { vm_compute. reflexivity. }
  split; [exact Hfinal|].
  assert (pc (Demo.after "/rootfs" Demo.cancelledInWait)
          <> MReturned (Failed (ErrCtx Canceled))) as Hne.
  { rewrite Hfinal. discriminate. }
  destruct (Hstep LMain _ _ Hexec Hpc Hne) as [_ [(_ & _ & Hdone & _)|[H|H]]].
  - split; [exact Hdone | exact Hpc].
  - destruct H as (i & e & H & _). rewrite Hfinal in H. discriminate H.
  - destruct H as (H & _). rewrite Hfinal in H. discriminate H.
Defined.

(** C9, counterexample.  The root does not exist and the context is
    cancelled before the call: [Check] returns the cancellation error, not
    the empty collection. *)
Lemma Check_missing_root_cancelled :
  os_Lstat Demo.world Demo.missing = inr (ErrOS "lstat: no such file or directory") /\
  exists s,
    run Demo.world Demo.missing (LCancel Canceled :: replicate 6 LMain) init = Some s /\
    pc s = MReturned (Failed (ErrCtx Canceled)).
Proof. split; [reflexivity|]. eexists. split; vm_compute; reflexivity. Qed.

(** C9, witnesses: the missing root of the demo world, a root directory
    that cannot be listed, and a relative path in a world whose working
    directory is gone. *)
Lemma Check_missing_root_witness :
  candidates Demo.world Demo.missing = [] /\
  (exists s,
     run Demo.world Demo.missing (replicate 6 LMain) init = Some s /\
     pc s = MReturned (Reports [])) /\
  (let W := mkWorld (filepath_Abs Demo.world) (filepath_Rel Demo.world)
              (fun _ => inl (FsDir (Some (ErrOS "open /root: permission denied")) []))
              (os_Stat Demo.world) (elf_Open Demo.world) (isBinary_ReadFile Demo.world)
              (buildinfo_ReadFile Demo.world) (cmd_Run Demo.world) in
   exists s,
     run W "/root" [LCancel Canceled; LMain; LMain] init = Some s /\
     pc s = MReturned (Failed (ErrWalk (ErrCtx Canceled)))) /\
  (let W := mkWorld (fun _ => inr (ErrOS "getwd: no such file or directory"))
              (filepath_Rel Demo.world) (os_Lstat Demo.world) (os_Stat Demo.world)
              (elf_Open Demo.world) (isBinary_ReadFile Demo.world)
              (buildinfo_ReadFile Demo.world) (cmd_Run Demo.world) in
   exists s,
     run W "rootfs" [LMain] init = Some s /\
     pc s = MReturned (Failed (ErrAbs (ErrOS "getwd: no such file or directory")))).
Proof.
  destruct (Check_missing_root Demo.world Demo.missing) as [H _].
  destruct (H Demo.missing (ErrOS "lstat: no such file or directory") eq_refl eq_refl)
    as (_ & Hc & Hrun & _).
  split; [exact Hc|]. split; [exact Hrun|]. split.
  - intros W. destruct (Check_missing_root W "/root") as (_ & H' & _).
    destruct (H' "/root"%string (ErrOS "open /root: permission denied") eq_refl eq_refl)
      as (_ & _ & _ & Hrun' & _).
    exact (Hrun' Canceled).
  - intros W. destruct (Check_missing_root W "rootfs") as (_ & _ & H').
    destruct (H' (ErrOS "getwd: no such file or directory") eq_refl) as (Hrun' & _).
    exact Hrun'.
Defined.

(** The scan of an image in which every file is a Go binary: under
    [/proc/1/root] the walk visits the files and keeps none, under
    [/tmp/rootfs] it keeps all of them, [proc/cpuinfo] included. *)
Example candidates_under_proc :
  let W := mkWorld (fun p => inl p) (fun _ p => inl p)
             (fun _ => inl (FsDir None [("proc", FsDir None [("cpuinfo", FsFile)]);
                                        ("usr", FsDir None [("app", FsFile)])]))
             (fun _ => inl 493%N) (fun _ => None) (fun _ => None)
             (fun _ => inl Demo.info) (fun _ => Demo.timedOut) in
  map call_path (WalkDir W "/proc/1/root")
    = ["/proc/1/root"; "/proc/1/root/proc"; "/proc/1/root/proc/cpuinfo";
       "/proc/1/root/usr"; "/proc/1/root/usr/app"] /\
  candidates W "/proc/1/root" = [] /\
  candidates W "/tmp/rootfs" = ["/tmp/rootfs/proc/cpuinfo"; "/tmp/rootfs/usr/app"] /\
  candidates W "/" = ["/usr/app"].
Proof. vm_compute. repeat split. Qed.

(** ** The scan terminates *)

Lemma sumRank_insert (l : list TaskPc) (i : nat) (a b : TaskPc) :
  l !! i = Some a -> sumRank (<[i:=b]> l) + rank a = sumRank l + rank b.
Proof.
  revert i. induction l as [|t l IH]; intros [|i] H; simpl in *; try done.
  - injection H as ->. lia.
  - specialize (IH i H). lia.
Qed.

Lemma sumRank_replicate (n : nat) (t : TaskPc) : sumRank (replicate n t) = n * rank t.
Proof. induction n as [|n IH]; simpl; [done | rewrite IH; lia]. Qed.

Lemma stepTask_sumRank (W : World) (idx : nat) (s s' : State) :
  stepTask W idx s = Some s' -> sumRank (tasks s') < sumRank (tasks s).
Proof.
  unfold stepTask. intros H.
  destruct (tasks s !! idx) as [t|] eqn:Ht; [|done].
  destruct (binaryPaths s !! idx) as [fp|] eqn:Hfp; [|done].
  destruct t; try done; repeat case_match; simplify_eq; simpl;
    match goal with |- context [sumRank (<[idx:=?b]> _)] =>
      pose proof (sumRank_insert _ _ _ b Ht) as Hs; simpl in Hs end; lia.
Qed.

(** Every statement of every goroutine, and the cancellation, brings the
    scan closer to its end. *)
Lemma exec_measure (W : World) (path : string) (l : Label) (s s' : State) :
  Inv W path s -> exec W path l s = Some s' -> measure W path s' < measure W path s.
Proof.
  intros HI H. destruct l as [e| |idx|idx o]; simpl in H.
  - destruct (ctx s) eqn:Hc; [done|]. injection H as <-.
    unfold measure, mainRank. simpl. rewrite Hc. lia.
  - unfold stepMain in H. unfold measure, mainRank.
    destruct (pc s) as [|[|c pending]|i| | |res] eqn:Hpc.
    + destruct (filepath_Abs W path) as [root|err] eqn:Habs; simplify_eq; simpl; lia.
    + simplify_eq. simpl. rewrite sumRank_replicate. simpl. lia.
    + destruct (walkFn W (ctx s) (binaryPaths s) c) as [paths [err|]] eqn:Hfn;
        simplify_eq; simpl; [lia|].
      assert (length paths <= S (length (binaryPaths s))); [|lia].
      rewrite (walkFn_no_error _ _ _ _ _ Hfn). unfold walkFn.
      repeat case_match; simpl; rewrite ?length_app; simpl; lia.
    + destruct (binaryPaths s !! i) as [fp|] eqn:Hfp; [destruct (ctx s) as [e|] eqn:Hctx|];
        simplify_eq; simpl; rewrite ?Hctx; try lia.
      apply lookup_lt_Some in Hfp.
      destruct (tasks s !! i) as [t|] eqn:Ht.
      * pose proof (sumRank_insert _ _ _ TBlocked Ht) as Hs. simpl in Hs.
        pose proof (inv_dispatch _ _ _ HI) as Hd. rewrite Hpc in Hd.
        rewrite (proj2 (Hd i t Ht)) in Hs by done. simpl in Hs. lia.
      * apply lookup_ge_None in Ht. rewrite list_insert_ge by done. lia.
    + destruct (forallb finished (tasks s)); simplify_eq. simpl. lia.
    + destruct (ctx s) eqn:Hctx; simplify_eq; simpl; rewrite ?Hctx; lia.
    + done.
  - pose proof (stepTask_pc _ _ _ _ H) as (Hp & Hc & Hb).
    pose proof (stepTask_sumRank _ _ _ _ H) as Hs.
    unfold measure, mainRank. rewrite Hp, Hc, Hb. lia.
  - pose proof (stepKilled_pc _ _ _ _ _ H) as Hp.
    unfold stepKilled in H. repeat case_match; simplify_eq.
    match goal with Ht : tasks s !! idx = Some _ |- context [set_task s idx ?b] =>
      pose proof (sumRank_insert _ _ _ b Ht) as Hs; simpl in Hs end.
    unfold measure, mainRank. simpl. lia.
Qed.

Lemma forallb_false_lookup (f : TaskPc -> bool) (l : list TaskPc) :
  forallb f l = false -> exists i t, l !! i = Some t /\ f t = false.
Proof.
  induction l as [|t l IH]; simpl; [done|].
  destruct (f t) eqn:Hf; simpl.
  - intros (i & t' & Hi & Ht')%IH. by exists (S i), t'.
  - intros _. by exists 0, t.
Qed.

Lemma countIf_pos (f : TaskPc -> bool) (l : list TaskPc) :
  0 < countIf f l -> exists i t, l !! i = Some t /\ f t = true.
Proof.
  induction l as [|t l IH]; simpl; [lia|].
  destruct (f t) eqn:Hf.
  - intros _. by exists 0, t.
  - intros (i & t' & Hi & Ht')%IH. by exists (S i), t'.
Qed.

(** A started task that is not done can execute its next statement, unless
    it waits for a token of a full semaphore. *)
Lemma stepTask_enabled (W : World) (path : string) (s : State) (idx : nat) (t : TaskPc) :
  Inv W path s -> tasks s !! idx = Some t -> finished t = false ->
  holding t = true \/ semaphore s < maxParallel ->
  exists s', stepTask W idx s = Some s'.
Proof.
  intros HI Ht Hf Hroom. unfold stepTask. rewrite Ht.
  assert (is_Some (binaryPaths s !! idx)) as [fp ->].
  { apply lookup_lt_is_Some. rewrite <- (inv_paths _ _ _ HI).
    - by apply lookup_lt_Some in Ht.
    - intros E. by rewrite E in Ht. }
  destruct t; try done; try (by eexists); try (by destruct (ctx s); eexists).
  - destruct Hroom as [?|Hlt]; [done|]. apply Nat.ltb_lt in Hlt. rewrite Hlt. by eexists.
  - by destruct (checkStatic _ _); eexists.
Qed.

(** No deadlock: as long as [Check] has not returned, some goroutine can
    execute a statement. *)
Lemma exec_progress (W : World) (path : string) (s : State) :
  Inv W path s -> returned s = false ->
  exists l s', isCancel l = false /\ exec W path l s = Some s'.
Proof.
  intros HI Hret. unfold returned in Hret.
  destruct (pc s) as [|pending|i| | |res] eqn:Hpc; try done.
  - exists LMain. simpl. unfold stepMain. rewrite Hpc.
    destruct (filepath_Abs W path); by eexists.
  - exists LMain. simpl. unfold stepMain. rewrite Hpc.
    destruct pending as [|c pending]; [by eexists|].
    destruct (walkFn W (ctx s) (binaryPaths s) c) as [paths [err|]]; by eexists.
  - exists LMain. simpl. unfold stepMain. rewrite Hpc.
    destruct (binaryPaths s !! i); [destruct (ctx s)|]; by eexists.
  - destruct (forallb finished (tasks s)) eqn:Hall.
    + exists LMain. simpl. unfold stepMain. rewrite Hpc, Hall. by eexists.
    + apply forallb_false_lookup in Hall as (i & t & Hi & Hf).
      destruct (decide (semaphore s < maxParallel)) as [Hlt|Hfull].
      * destruct (stepTask_enabled W path s i t HI Hi Hf (or_intror Hlt)) as [s' Hs'].
        by exists (LTask i), s'.
      * assert (0 < countIf holding (tasks s)) as Hpos.
        { rewrite <- (inv_sem _ _ _ HI). unfold maxParallel in Hfull. lia. }
        apply countIf_pos in Hpos as (j & t' & Hj & Hh).
        destruct (stepTask_enabled W path s j t' HI Hj) as [s' Hs'];
          [by destruct t' | by left |].
        by exists (LTask j), s'.
  - exists LMain. simpl. unfold stepMain. rewrite Hpc. destruct (ctx s); by eexists.
Qed.

Lemma exec_ctx (W : World) (path : string) (l : Label) (s s' : State) :
  isCancel l = false -> exec W path l s = Some s' -> ctx s' = ctx s.
Proof.
  intros Hl H. destruct l as [e| |idx|idx o]; simpl in *; [done| | |].
  - unfold stepMain in H. repeat case_match; by simplify_eq.
  - by apply stepTask_pc in H as (_ & ? & _).
  - unfold stepKilled in H. repeat case_match; by simplify_eq.
Qed.

Lemma run_ctx (W : World) (path : string) (ls : list Label) (s s' : State) :
  forallb (fun l => negb (isCancel l)) ls = true -> run W path ls s = Some s' ->
  ctx s' = ctx s.
Proof.
  revert s. induction ls as [|l ls IH]; intros s Hls H; simpl in *; [by simplify_eq|].
  apply andb_true_iff in Hls as [Hl Hls]. apply negb_true_iff in Hl.
  destruct (exec W path l s) as [s1|] eqn:Hs1; [|done].
  rewrite (IH s1 Hls H). by apply exec_ctx with W path l.
Qed.

Lemma run_measure (W : World) (path : string) (ls : list Label) (s s' : State) :
  Inv W path s -> run W path ls s = Some s' ->
  length ls + measure W path s' <= measure W path s.
Proof.
  revert s. induction ls as [|l ls IH]; intros s HI H; simpl in *; [by simplify_eq|].
  destruct (exec W path l s) as [s1|] eqn:Hs1; [|done].
  pose proof (exec_measure _ _ _ _ _ HI Hs1).
  pose proof (IH s1 (Inv_step _ _ _ _ _ HI Hs1) H). lia.
Qed.

Lemma run_to_return (W : World) (path : string) (n : nat) (s : State) :
  measure W path s < n -> Inv W path s ->
  exists ls s',
    run W path ls s = Some s' /\ returned s' = true /\
    forallb (fun l => negb (isCancel l)) ls = true.
Proof.
  revert s. induction n as [|n IH]; intros s Hn HI; [lia|].
  destruct (returned s) eqn:Hret.
  - by exists [], s.
  - destruct (exec_progress W path s HI Hret) as (l & s1 & Hl & Hs1).
    pose proof (exec_measure _ _ _ _ _ HI Hs1) as Hlt.
    destruct (IH s1) as (ls & s' & Hrun & Hret' & Hls);
      [lia | by apply Inv_step with l s |].
    exists (l :: ls), s'. simpl. rewrite Hs1, Hl. done.
Qed.

(** From every state a run of [Check] can reach, the scan can go on until
    [Check] returns, without any help from a cancellation: no goroutine
    waits for ever on the semaphore or on the wait group. *)
Theorem Check_can_always_return (W : World) (path : string) (s : State) :
  reachable W path s ->
  exists ls s' res,
    run W path ls s = Some s' /\ pc s' = MReturned res /\
    forallb (fun l => negb (isCancel l)) ls = true /\ ctx s' = ctx s.
Proof.
  intros HI%Inv_reachable.
  destruct (run_to_return W path (S (measure W path s)) s) as (ls & s' & Hrun & Hret & Hls);
    [lia | done |].
  unfold returned in Hret. destruct (pc s') as [| | | | |res] eqn:Hpc; try done.
  exists ls, s', res. repeat split; try done. by apply run_ctx with W path ls.
Qed.

(** A scan that is not cancelled completes: some schedule leads [Check] to
    return, and then with the report of every candidate, or with the error
    of [filepath.Abs]. *)
Theorem Check_completes (W : World) (path : string) :
  exists ls s,
    run W path ls init = Some s /\ ctx s = None /\
    match filepath_Abs W path with
    | inl root => pc s = MReturned (Reports (expectedReports W root))
    | inr cause => pc s = MReturned (Failed (ErrAbs cause))
    end.
Proof.
  destruct (run_to_return W path (S (measure W path init)) init)
    as (ls & s & Hrun & Hret & Hls); [lia | apply Inv_init |].
  assert (Inv W path s) as HI.
  { apply Inv_reachable. apply run_reachable with ls init; [apply reachable_init | done]. }
  pose proof (run_ctx _ _ _ _ _ Hls Hrun) as Hctx. simpl in Hctx.
  exists ls, s. split; [done|]. split; [done|].
  unfold returned in Hret. destruct (pc s) as [| | | | |[rs|err]] eqn:Hpc; try done.
  - destruct (inv_returned _ _ _ HI rs Hpc) as (Ha & -> & _). by rewrite Ha.
  - destruct (inv_failed _ _ _ HI err Hpc)
      as [(cause & Ha & ->)|[(e & call & He & _)|(e & He & _)]]; [|congruence..].
    by rewrite Ha.
Qed.

(** Every run of [Check] is finite: a schedule has at most as many steps as
    the measure of the initial state, ten per walked entry and seven more. *)
Theorem Check_run_length (W : World) (path : string) (ls : list Label) (s : State) :
  run W path ls init = Some s ->
  length ls <=
  match filepath_Abs W path with
  | inl root => 10 * length (WalkDir W root) + 7
  | inr _ => 2
  end.
Proof.
  intros H. pose proof (run_measure _ _ _ _ _ (Inv_init W path) H) as Hm.
  unfold measure at 2, mainRank in Hm. simpl in Hm.
  destruct (filepath_Abs W path); lia.
Qed.

(** ** A context that is cancelled before the call *)

Lemma cancelled_step (W : World) (path : string) (l : Label) (s s' : State) (e : CtxErr) :
  ctx s = Some e ->
  (forall j t, tasks s !! j = Some t -> t = TNotStarted) ->
  (forall rs, pc s <> MReturned (Reports rs)) ->
  exec W path l s = Some s' ->
  ctx s' = Some e /\
  (forall j t, tasks s' !! j = Some t -> t = TNotStarted) /\
  (forall rs, pc s' <> MReturned (Reports rs)).
Proof.
  intros Hc Ht Hr H. destruct l as [e'| |idx|idx o]; simpl in H.
  - by rewrite Hc in H.
  - unfold stepMain in H. rewrite Hc in H.
    destruct (pc s) as [|[|c pending]|i| | |res] eqn:Hpc; repeat case_match; simplify_eq;
      simpl; try done.
    repeat split; try done. by intros j t [-> _]%lookup_replicate.
  - unfold stepTask in H. destruct (tasks s !! idx) as [t|] eqn:Hi; [|done].
    rewrite (Ht idx t Hi) in H. by destruct (binaryPaths s !! idx).
  - unfold stepKilled in H. rewrite Hc in H.
    destruct (tasks s !! idx) as [t|] eqn:Hi; [|done]. by rewrite (Ht idx t Hi) in H.
Qed.

(** When the context is already cancelled at the call, no task is ever
    started (no binary is read or executed) and [Check] never returns
    reports: if it returns, then with an error. *)
Theorem Check_cancelled_before_call (W : World) (path : string) (e : CtxErr)
    (ls : list Label) (s : State) :
  run W path (LCancel e :: ls) init = Some s ->
  ctx s = Some e /\
  (forall j t, tasks s !! j = Some t -> t = TNotStarted) /\
  semaphore s = 0 /\
  (forall res, pc s = MReturned res ->
     (exists cause, res = Failed (ErrAbs cause)) \/
     res = Failed (ErrWalk (ErrCtx e)) \/ res = Failed (ErrCtx e)).
Proof.
  simpl. intros H.
  assert (forall ls s0 s1,
            ctx s0 = Some e -> (forall j t, tasks s0 !! j = Some t -> t = TNotStarted) ->
            (forall rs, pc s0 <> MReturned (Reports rs)) ->
            run W path ls s0 = Some s1 ->
            ctx s1 = Some e /\ (forall j t, tasks s1 !! j = Some t -> t = TNotStarted) /\
            (forall rs, pc s1 <> MReturned (Reports rs))) as Hrun.
  { clear. induction ls as [|l ls IH]; intros s0 s1 Hc Ht Hr H; simpl in H.
    - by simplify_eq.
    - destruct (exec W path l s0) as [s2|] eqn:Hs2; [|done].
      destruct (cancelled_step _ _ _ _ _ _ Hc Ht Hr Hs2) as (Hc' & Ht' & Hr').
      by apply (IH s2). }
  destruct (Hrun ls (set_ctx init (Some e)) s) as (Hc & Ht & Hr); try done.
  assert (Inv W path s) as HI.
  { apply Inv_reachable. apply run_reachable with (LCancel e :: ls) init;
      [apply reachable_init | done]. }
  split; [done|]. split; [done|]. split.
  - rewrite (inv_sem _ _ _ HI). clear -Ht.
    induction (tasks s) as [|t l IH]; simpl; [done|].
    rewrite (Ht 0 t eq_refl). simpl. apply IH. intros j t' Hj. by apply (Ht (S j)).
  - intros [rs|err] Hpc; [by destruct (Hr rs)|].
    destruct (inv_failed _ _ _ HI err Hpc)
      as [(cause & _ & ->)|[(e' & call & He & _ & -> & _)|(e' & He & _ & ->)]].
    + left. by exists cause.
    + right. left. congruence.
    + right. right. congruence.
Qed.

Lemma walkDir_first (path : string) (d : FsNode) :
  exists IsDir rest, walkDir path d = mkCall path IsDir None :: rest.
Proof. destruct d; simpl; by eexists _, _. Qed.

(** When the root exists and the context is already cancelled at the call,
    the walk stops at the root and the error [Check] returns is the walk
    error that wraps [ctx.Err()], not [ctx.Err()] itself; and [Check] does
    return it, after three statements. *)
Theorem Check_cancelled_existing_root (W : World) (path root : string) (d : FsNode)
    (e : CtxErr) :
  filepath_Abs W path = inl root -> os_Lstat W root = inl d ->
  (exists s, run W path [LCancel e; LMain; LMain] init = Some s /\
             pc s = MReturned (Failed (ErrWalk (ErrCtx e)))) /\
  (forall ls s res, run W path (LCancel e :: ls) init = Some s ->
                    pc s = MReturned res -> res = Failed (ErrWalk (ErrCtx e))).
Proof.
  intros Habs Hl.
  destruct (walkDir_first root d) as (isDir & rest & Hw).
  assert (WalkDir W root = mkCall root isDir None :: rest) as HW.
  { unfold WalkDir. by rewrite Hl. }
  split.
  - eexists. simpl. unfold stepMain at 1. simpl. rewrite Habs.
    unfold stepMain at 1. simpl. rewrite HW. simpl. done.
  - simpl. intros ls s res H Hres.
    set (good := fun s0 : State =>
           ctx s0 = Some e /\
           (pc s0 = MStart \/ (pc s0 = MWalk (WalkDir W root)) \/
            pc s0 = MReturned (Failed (ErrWalk (ErrCtx e)))) /\
           tasks s0 = []).
    assert (forall ls s0 s1, good s0 -> run W path ls s0 = Some s1 -> good s1) as Hrun.
    { clear -Habs HW. induction ls as [|l ls IH]; intros s0 s1 Hg H; simpl in H.
      - by simplify_eq.
      - destruct (exec W path l s0) as [s2|] eqn:Hs2; [|done].
        apply (IH s2); [|done]. clear IH H. destruct Hg as (Hc & Hpc & Ht).
        destruct l as [e'| |idx|idx o]; simpl in Hs2.
        + by rewrite Hc in Hs2.
        + unfold stepMain in Hs2. rewrite Hc in Hs2.
          destruct Hpc as [Hpc|[Hpc|Hpc]]; rewrite Hpc in Hs2.
          * rewrite Habs in Hs2. simplify_eq. unfold good. simpl. auto.
          * rewrite HW in Hs2. simpl in Hs2. simplify_eq. unfold good. simpl. auto.
          * done.
        + unfold stepTask in Hs2. by rewrite Ht in Hs2.
        + unfold stepKilled in Hs2. rewrite Hc, Ht in Hs2. done. }
    destruct (Hrun ls (set_ctx init (Some e)) s) as (_ & Hpc & _).
    + unfold good. simpl. auto.
    + done.
    + destruct Hpc as [Hpc|[Hpc|Hpc]]; congruence.
Qed.

(** ** The candidates of a walk *)

(** The candidates of a scan are the paths of the calls of the walk that are
    readable, not directories, not excluded and accepted by [isBinary], in
    the order of the walk: a directory or an entry that cannot be read is
    never a candidate, and the list is a sublist of the walked paths. *)
Theorem candidates_of_walk (W : World) (root : string) :
  candidates W root = map call_path (List.filter (accepted W) (WalkDir W root)) /\
  (forall fp, fp ∈ candidates W root <->
     exists c, c ∈ WalkDir W root /\ call_path c = fp /\ call_err c = None /\
               call_IsDir c = false /\ shouldExcludePath fp = false /\
               isBinary W fp = true) /\
  sublist (candidates W root) (map call_path (WalkDir W root)).
Proof.
  assert (candidates W root = map call_path (List.filter (accepted W) (WalkDir W root)))
    as Heq by apply discover_accepted.
  split; [done|]. split.
  - intros fp. rewrite Heq, list_elem_of_In, in_map_iff. split.
    + intros (c & <- & [Hin Hacc]%filter_In). exists c.
      split; [by apply list_elem_of_In|]. unfold accepted in Hacc.
      destruct (call_err c); [done|].
      apply andb_true_iff in Hacc as [[Hd He]%andb_true_iff Hb].
      apply negb_true_iff in Hd, He. done.
    + intros (c & Hin & <- & Herr & Hd & He & Hb). exists c. split; [done|].
      apply filter_In. split; [by apply list_elem_of_In|].
      unfold accepted. by rewrite Herr, Hd, He, Hb.
  - rewrite Heq. generalize (WalkDir W root). intros l.
    induction l as [|c l IH]; simpl; [done|].
    destruct (accepted W c); simpl; [by apply sublist_skip | by apply sublist_cons].
Qed.

(** ** What a report carries *)

Lemma applySetting_static (d : GoBinaryReportDetails) (x : buildinfo.BuildSetting) :
  GoVersion (applySetting d x) = GoVersion d /\
  Module_ (applySetting d x) = Module_ d /\
  FailsOnFIPSCheck (applySetting d x) = FailsOnFIPSCheck d /\
  RuntimePanicLog (applySetting d x) = RuntimePanicLog d.
Proof. unfold applySetting. by repeat case_match. Qed.

Lemma scanSettings_static (l : list buildinfo.BuildSetting) (d : GoBinaryReportDetails) :
  GoVersion (scanSettings l d) = GoVersion d /\
  Module_ (scanSettings l d) = Module_ d /\
  FailsOnFIPSCheck (scanSettings l d) = FailsOnFIPSCheck d /\
  RuntimePanicLog (scanSettings l d) = RuntimePanicLog d.
Proof.
  revert d. induction l as [|x l IH]; intros d; [done|].
  change (scanSettings (x :: l) d) with (scanSettings l (applySetting d x)).
  destruct (IH (applySetting d x)) as (-> & -> & -> & ->). apply applySetting_static.
Qed.

(** The version and the module of the report are those of the build
    information (the module stays empty when the main module has no path),
    whatever the settings and the outcome of the probe; an error comes with
    the zero details, and only from the cancellation check or from
    [buildinfo.ReadFile]. *)
Theorem checkGoBinaryFIPS_details (ctxErr : option CtxErr)
    (info : buildinfo.BuildInfo + error) (o : RunOutcome) :
  match ctxErr, info with
  | None, inl i =>
      GoVersion (fst (checkGoBinaryFIPS ctxErr info o)) = buildinfo.GoVersion i /\
      Module_ (fst (checkGoBinaryFIPS ctxErr info o)) = buildinfo.Main_Path i /\
      snd (checkGoBinaryFIPS ctxErr info o) = None
  | None, inr err =>
      checkGoBinaryFIPS ctxErr info o = (zeroDetails, Some (ErrReadBuildInfo err))
  | Some e, _ =>
      checkGoBinaryFIPS ctxErr info o = (zeroDetails, Some (ErrCtx e))
  end.
Proof.
  destruct ctxErr as [e|]; [done|]. destruct info as [i|err]; [|done].
  destruct (checkGoBinaryFIPS_readable i o) as (d & Hd & ->). simpl.
  simpl in Hd. injection Hd as <-.
  match goal with |- context [scanSettings ?l ?d0] =>
    destruct (scanSettings_static l d0) as (-> & -> & _) end.
  split; [by destruct (negb _)|]. split; [|done].
  destruct (String.eqb (buildinfo.Main_Path i) "") eqn:He; simpl; [|done].
  by apply String.eqb_eq in He.
Qed.

Lemma candidateReport_error (W : World) (root fp : string) :
  Type_ (candidateReport W root fp) = "gobinary"%string /\
  match buildinfo_ReadFile W fp with
  | inl _ => Error (candidateReport W root fp) = None
  | inr err =>
      Error (candidateReport W root fp) = Some (ErrReadBuildInfo err) /\
      GoBinaryDetails (candidateReport W root fp) = zeroDetails
  end.
Proof.
  split; [done|]. unfold candidateReport.
  destruct (buildinfo_ReadFile W fp) as [i|err]; [|done].
  by destruct (checkGoBinaryFIPS_readable i (cmd_Run W fp)) as (d & _ & ->).
Qed.

(** The reports [Check] returns carry no error but that of
    [buildinfo.ReadFile], and then the zero details: a report with a
    cancellation error, which a task writes when the context is cancelled
    under it, is never handed to the caller, and no report carries the
    error of the runtime check. *)
Theorem Check_returned_errors (W : World) (path : string) (s : State)
    (rs : list BinaryReport) :
  reachable W path s -> pc s = MReturned (Reports rs) ->
  forall r, r ∈ rs ->
    Type_ r = "gobinary"%string /\
    (Error r = None \/
     exists err, Error r = Some (ErrReadBuildInfo err) /\ GoBinaryDetails r = zeroDetails).
Proof.
  intros HI%Inv_reachable Hpc r Hr.
  destruct (inv_returned _ _ _ HI rs Hpc) as (_ & -> & _).
  unfold expectedReports in Hr. apply list_elem_of_In, in_map_iff in Hr as (fp & <- & _).
  destruct (candidateReport_error W (absRoot s) fp) as [Ht He]. split; [done|].
  destruct (buildinfo_ReadFile W fp) as [i|err]; [by left|].
  right. by exists err.
Qed.

(** ** The indicators of the runtime probe *)

(** The first indicator is redundant: the probe fails exactly when the
    captured standard error contains ["FIPS mode requested"] or ["but not
    available in OpenSSL"]; and the result is a function of the captured
    text alone, not of the error of [Run] nor of the deadline. *)
Theorem checkRuntimeFIPS_two_indicators (o : RunOutcome) :
  (fst (fst (checkRuntimeFIPS o)) = false <->
   Contains (run_stderr o) "FIPS mode requested" = true \/
   Contains (run_stderr o) "but not available in OpenSSL" = true) /\
  checkRuntimeFIPS o = checkRuntimeFIPS (mkRun None (run_stderr o) None) /\
  (fst (fst (checkRuntimeFIPS o)) = false -> Contains (run_stderr o) "FIPS" = true \/
                                             Contains (run_stderr o) "OpenSSL" = true).
Proof.
  assert (fst (fst (checkRuntimeFIPS o)) = false <->
          Contains (run_stderr o) "FIPS mode requested" = true \/
          Contains (run_stderr o) "but not available in OpenSSL" = true) as Hiff.
  { rewrite checkRuntimeFIPS_passed. unfold fipsPanicIndicators, findIndicator.
    destruct (Contains (run_stderr o) "panic: opensslcrypto: FIPS mode requested") eqn:H1.
    - split; [intros _; left | done].
      by apply Contains_trans with "panic: opensslcrypto: FIPS mode requested"%string.
    - destruct (Contains (run_stderr o) "FIPS mode requested"); [by split; auto|].
      destruct (Contains (run_stderr o) "but not available in OpenSSL"); [by split; auto|].
      split; [done | by intros [?|?]]. }
  split; [done|]. split.
  - unfold checkRuntimeFIPS. cbn [run_stderr run_err execCtx_Err].
    destruct (findIndicator (run_stderr o) fipsPanicIndicators); [done|].
    destruct (run_err o); [|done].
    destruct (is_DeadlineExceeded (execCtx_Err o)); [done|].
    by destruct (negb (Contains (run_stderr o) "FIPS")).
  - intros [H|H]%Hiff; [left | right].
    + by apply Contains_trans with "FIPS mode requested"%string.
    + by apply Contains_trans with "but not available in OpenSSL"%string.
Qed.

(** ** [isBinary] and the permission bits *)

Lemma testbit_0111 (n : N) :
  N.testbit 73 n = true -> n = 0%N \/ n = 3%N \/ n = 6%N.
Proof.
  intros H. destruct (N.lt_ge_cases n 7) as [Hlt|Hge].
  - assert (n = 0 \/ n = 1 \/ n = 2 \/ n = 3 \/ n = 4 \/ n = 5 \/ n = 6)%N as Hn by lia.
    destruct Hn as [->|[->|[->|[->|[->|[->| ->]]]]]]; simpl in H; auto; discriminate.
  - rewrite N.bits_above_log2 in H; [discriminate|]. simpl. lia.
Qed.

Lemma land_0111 (mode : N) :
  N.land mode 73 = 0%N <->
  N.testbit mode 0 = false /\ N.testbit mode 3 = false /\ N.testbit mode 6 = false.
Proof.
  split.
  - intros H.
    assert (forall n, N.testbit mode n && N.testbit 73 n = false) as Hb.
    { intros n. by rewrite <- N.land_spec, H, N.bits_0. }
    pose proof (Hb 0%N) as H0. pose proof (Hb 3%N) as H3. pose proof (Hb 6%N) as H6.
    simpl N.testbit in H0, H3, H6 at 2. rewrite andb_true_r in H0, H3, H6. done.
  - intros (H0 & H3 & H6). apply N.bits_inj_0. intros n. rewrite N.land_spec.
    destruct (N.testbit 73 n) eqn:E; [|by rewrite andb_false_r].
    destruct (testbit_0111 n E) as [->|[->| ->]]; by rewrite ?H0, ?H3, ?H6.
Qed.

(** [isBinary] accepts a file exactly when [os.Stat] succeeds, one of the
    three execute bits (others, group, owner) of its mode is set, it opens
    as an ELF file and its build information can be read; the read and
    write bits and the file type play no part. *)
Theorem isBinary_spec (W : World) (filePath : string) :
  isBinary W filePath = true <->
  exists mode,
    os_Stat W filePath = inl mode /\
    (N.testbit mode 0 = true \/ N.testbit mode 3 = true \/ N.testbit mode 6 = true) /\
    elf_Open W filePath = None /\
    isBinary_ReadFile W filePath = None.
Proof.
  unfold isBinary. destruct (os_Stat W filePath) as [mode|err].
  - destruct (N.eqb (N.land mode 73) 0) eqn:Hm.
    + apply N.eqb_eq, land_0111 in Hm as (H0 & H3 & H6). split; [done|].
      intros (m & [= <-] & [H|[H|H]] & _); congruence.
    + assert (N.testbit mode 0 = true \/ N.testbit mode 3 = true \/ N.testbit mode 6 = true)
        as Hbits.
      { apply N.eqb_neq in Hm. rewrite land_0111 in Hm.
        destruct (N.testbit mode 0); [auto|]. destruct (N.testbit mode 3); [auto|].
        destruct (N.testbit mode 6); [auto|]. by destruct Hm. }
      destruct (elf_Open W filePath), (isBinary_ReadFile W filePath); split; try done;
        try (by intros (m & _ & _ & ? & ?)).
      intros _. by exists mode.
  - split; [done|]. by intros (m & ? & _).
Qed.

(** ** Tasks and their candidates *)

Lemma checkStatic_inr (c : option CtxErr) (info : buildinfo.BuildInfo + error)
    (d : GoBinaryReportDetails) :
  checkStatic c info = inr d ->
  c = None /\ exists i, info = inl i /\ checkStatic None (inl i) = inr d.
Proof. destruct c, info; try done. intros H. split; [done|]. by eexists. Qed.

Lemma probing_step (W : World) (path : string) (l : Label) (s s' : State) :
  Inv W path s -> exec W path l s = Some s' ->
  (tasks s <> [] ->
   binaryPaths s = candidates W (absRoot s) /\ filepath_Abs W path = inl (absRoot s)) ->
  (forall idx d, tasks s !! idx = Some (TProbing d) ->
     exists fp info, binaryPaths s !! idx = Some fp /\
       buildinfo_ReadFile W fp = inl info /\ checkStatic None (inl info) = inr d) ->
  (tasks s' <> [] ->
   binaryPaths s' = candidates W (absRoot s') /\ filepath_Abs W path = inl (absRoot s')) /\
  (forall idx d, tasks s' !! idx = Some (TProbing d) ->
     exists fp info, binaryPaths s' !! idx = Some fp /\
       buildinfo_ReadFile W fp = inl info /\ checkStatic None (inl info) = inr d).
Proof.
  intros HI H Hc Hp. destruct l as [e| |idx|idx o]; simpl in H.
  - destruct (ctx s); by simplify_eq.
  - unfold stepMain in H.
    pose proof (inv_walking _ _ _ HI) as Hw. pose proof (inv_walk _ _ _ HI) as Hwalk.
    destruct (pc s) as [|[|c pending]|i| | |res] eqn:Hpc; simpl in *.
    + specialize (Hw eq_refl). destruct (filepath_Abs W path); simplify_eq; simpl;
        rewrite Hw; split; try done; intros ??; by rewrite lookup_nil.
    + simplify_eq. simpl. destruct Hwalk as (Ha & Hd & _). split; [done|].
      by intros idx d [? _]%lookup_replicate.
    + specialize (Hw eq_refl).
      destruct (walkFn W (ctx s) (binaryPaths s) c) as [paths [err|]]; simplify_eq; simpl;
        rewrite Hw; split; try done; intros ??; by rewrite lookup_nil.
    + destruct (binaryPaths s !! i) as [fp|] eqn:Hfp; [destruct (ctx s) as [e|]|];
        simplify_eq; simpl; try done.
      split.
      * intros Hne. apply Hc. intros E. by rewrite E in Hne.
      * intros idx d [(_ & ? & _)|[_ Hj]]%list_lookup_insert_Some; [done | by apply Hp].
    + destruct (forallb finished (tasks s)); by simplify_eq.
    + destruct (ctx s); by simplify_eq.
    + done.
  - pose proof (stepTask_pc _ _ _ _ H) as (_ & _ & Hb).
    unfold stepTask in H.
    destruct (tasks s !! idx) as [t|] eqn:Ht; [|done].
    destruct (binaryPaths s !! idx) as [fp|] eqn:Hfp; [|done].
    assert (tasks s <> []) as Hne by (intros E; by rewrite E in Ht).
    assert (idx < length (tasks s)) as Hlt by (by apply lookup_lt_Some in Ht).
    assert (absRoot s' = absRoot s /\ binaryPaths s' = binaryPaths s /\
            exists t', tasks s' = <[idx:=t']> (tasks s) /\
              forall d, t' = TProbing d ->
                exists info, buildinfo_ReadFile W fp = inl info /\
                             checkStatic None (inl info) = inr d) as (Ha & _ & t' & Ht' & Hnew).
    { destruct t; try done; repeat case_match; simplify_eq; simpl;
        (split; [done|]); (split; [done|]); eexists; (split; [done|]); try done.
      intros d0 [= <-].
      match goal with Hs : checkStatic _ _ = inr _ |- _ =>
        apply checkStatic_inr in Hs as (_ & i & -> & Hs) end.
      by exists i. }
    rewrite Ha, Hb, Ht'. split; [by intros _; apply Hc|].
    intros j d [(<- & -> & _)|[_ Hj]]%list_lookup_insert_Some; [|by apply Hp].
    destruct (Hnew d eq_refl) as (info & ? & ?). by exists fp, info.
  - unfold stepKilled in H. repeat case_match; simplify_eq; simpl.
    split.
    + intros Hne. apply Hc. intros E. by rewrite E in Hne.
    + intros j d' [(_ & ? & _)|[_ Hj]]%list_lookup_insert_Some; [done | by apply Hp].
Qed.

(** A probe runs only on a discovered candidate whose build information
    its task has read: whenever a task is inside [cmd.Run()], also after
    [Check] has returned, its file was accepted by the filter and by
    [isBinary] during the walk and [buildinfo.ReadFile] has succeeded on it
    in the task. *)
Theorem Check_probes_candidates_only (W : World) (path : string) (s : State) :
  reachable W path s ->
  forall idx d, tasks s !! idx = Some (TProbing d) ->
    exists fp info c,
      binaryPaths s !! idx = Some fp /\
      filepath_Abs W path = inl (absRoot s) /\
      candidates W (absRoot s) !! idx = Some fp /\
      c ∈ WalkDir W (absRoot s) /\ call_path c = fp /\ accepted W c = true /\
      buildinfo_ReadFile W fp = inl info /\ checkStatic None (inl info) = inr d.
Proof.
  intros Hr.
  assert ((tasks s <> [] ->
           binaryPaths s = candidates W (absRoot s) /\
           filepath_Abs W path = inl (absRoot s)) /\
          (forall idx d, tasks s !! idx = Some (TProbing d) ->
             exists fp info, binaryPaths s !! idx = Some fp /\
               buildinfo_ReadFile W fp = inl info /\ checkStatic None (inl info) = inr d))
    as [Hc Hp].
  { induction Hr as [|s l s' Hr [IH1 IH2] Hstep]; [by split|].
    by apply (probing_step W path l s s' (Inv_reachable _ _ _ Hr)). }
  intros idx d Hi. destruct (Hp idx d Hi) as (fp & info & Hfp & Hinfo & Hd).
  destruct Hc as [Hb Ha]; [intros E; by rewrite E in Hi|].
  assert (fp ∈ candidates W (absRoot s)) as Hin.
  { rewrite <- Hb. by apply list_elem_of_lookup_2 with idx. }
  unfold candidates in Hin. rewrite discover_accepted in Hin. simpl in Hin.
  apply list_elem_of_In, in_map_iff in Hin as (c & Hcp & [Hcin Hacc]%filter_In).
  exists fp, info, c. rewrite <- Hb. repeat split; try done. by apply list_elem_of_In.
Qed.

(** ** The walk beneath its root *)

Lemma Join_Join (path name rel : string) :
  path <> ""%string -> name <> ""%string ->
  Join (Join path name) rel = Join path (name +:+ "/" +:+ rel).
Proof.
  intros Hp Hn. unfold Join.
  destruct (String.eqb path "/") eqn:He.
  - apply String.eqb_eq in He as ->. destruct name as [|a name]; [done|]. by simpl.
  - assert (String.eqb (path +:+ "/" +:+ name) "/" = false) as ->.
    { apply String.eqb_neq. destruct path as [|a path]; [done|]. simpl.
      intros [= _ E]. by destruct path. }
    by rewrite !append_assoc.
Qed.

(** Every call of a walk is made on the root or on a path below it. *)
Lemma walkDir_paths (d : FsNode) (path : string) (c : WalkCall) :
  path <> ""%string -> c ∈ walkDir path d ->
  call_path c = path \/ exists rel, call_path c = Join path rel.
Proof.
  revert d path c. fix IH 1. intros [|readErr entries] path c Hne Hin.
  - apply list_elem_of_singleton in Hin as ->. by left.
  - simpl in Hin. apply elem_of_cons in Hin as [->|Hin]; [by left|].
    apply elem_of_app in Hin as [Hin|Hin].
    { destruct readErr; [|by apply not_elem_of_nil in Hin].
      apply list_elem_of_singleton in Hin as ->. by left. }
    induction entries as [|[name d1] entries IHe]; [by apply not_elem_of_nil in Hin|].
    apply elem_of_app in Hin as [Hin|Hin]; [|by apply IHe].
    clear IHe. destruct (decide (name = ""%string)) as [->|Hname].
    + assert (Join path "" = path \/ Join path "" = (path +:+ "/")%string) as [E|E].
      { unfold Join. destruct (String.eqb path "/") eqn:He; [left | by right].
        by apply String.eqb_eq in He as ->. }
      * rewrite E in Hin. by apply (IH d1).
      * assert (Join path "" <> ""%string) as Hj by (rewrite E; by destruct path).
        destruct (IH d1 (Join path "") c Hj Hin) as [Hc|[rel Hc]].
        -- right. exists ""%string. by rewrite Hc.
        -- right. exists ("/" +:+ rel)%string. rewrite Hc, E. unfold Join.
           destruct (String.eqb path "/") eqn:He.
           ++ apply String.eqb_eq in He as ->. done.
           ++ assert (String.eqb (path +:+ "/") "/" = false) as ->.
              { apply String.eqb_neq. destruct path as [|a path]; [done|]. simpl.
                intros [= _ E']. by destruct path. }
              by rewrite !append_assoc.
    + assert (Join path name <> ""%string) as Hj.
      { unfold Join. destruct (String.eqb path "/"); [done|]. by destruct path. }
      destruct (IH d1 _ _ Hj Hin) as [Hc|[rel Hc]].
      * right. by exists name.
      * right. exists (name +:+ "/" +:+ rel)%string. by rewrite Hc, Join_Join.
Qed.

Lemma shouldExcludePath_root (root : string) :
  shouldExcludePath (root +:+ "/") = false -> shouldExcludePath root = false.
Proof.
  intros H. destruct (shouldExcludePath root) eqn:Hr; [|done].
  apply shouldExcludePath_prefix in Hr as (prefix & rest & Hin & ->).
  assert (shouldExcludePath ((prefix +:+ rest) +:+ "/") = true) as Ht; [|congruence].
  apply shouldExcludePath_prefix. exists prefix, (rest +:+ "/")%string.
  split; [done|]. by rewrite append_assoc.
Qed.

(** Under a scan root that is not the file system root and does not lie at
    or under [/proc], [/sys] or [/dev], the filter excludes no call of the
    walk: the candidates are all the readable files that [isBinary]
    accepts, the files of the [proc], [sys] and [dev] directories of the
    scanned tree included. *)
Theorem Check_filter_idle_beneath_root (W : World) (root : string) :
  root <> ""%string -> root <> "/"%string ->
  shouldExcludePath (root +:+ "/") = false ->
  (forall c, c ∈ WalkDir W root -> shouldExcludePath (call_path c) = false) /\
  candidates W root =
    map call_path
      (List.filter (fun c => match call_err c with
                             | Some _ => false
                             | None => negb (call_IsDir c) && isBinary W (call_path c)
                             end) (WalkDir W root)).
Proof.
  intros Hne Hroot Hex.
  assert (forall c, c ∈ WalkDir W root -> shouldExcludePath (call_path c) = false) as Hall.
  { intros c Hc. unfold WalkDir in Hc. destruct (os_Lstat W root) as [d|err].
    - destruct (walkDir_paths d root c Hne Hc) as [->|[rel ->]].
      + by apply shouldExcludePath_root.
      + by apply shouldExcludePath_beneath.
    - apply list_elem_of_singleton in Hc as ->. by apply shouldExcludePath_root. }
  split; [done|].
  unfold candidates. rewrite discover_accepted. simpl. f_equal.
  apply filter_ext_in. intros c Hc%list_elem_of_In. unfold accepted.
  destruct (call_err c); [done|]. rewrite (Hall c Hc). simpl. by rewrite andb_true_r.
Qed.

(** ** The statistics and the statuses of [printReports] *)

Section PrintReportsFacts.
Import fipschecker.


Lemma countStatistics_acc (reports : list BinaryReport) (a b : nat) :
  fold_left
    (fun counts report =>
       (if UseSystemcrypto (GoBinaryDetails report) then S (fst counts) else fst counts,
        if FailsOnFIPSCheck (GoBinaryDetails report) then S (snd counts) else snd counts))
    reports (a, b)
  = (a + length (List.filter (fun r => UseSystemcrypto (GoBinaryDetails r)) reports),
     b + length (List.filter (fun r => FailsOnFIPSCheck (GoBinaryDetails r)) reports)).
Proof.
  revert a b. induction reports as [|r reports IH]; intros a b; simpl.
  - f_equal; lia.
  - rewrite IH.
    destruct (UseSystemcrypto (GoBinaryDetails r)), (FailsOnFIPSCheck (GoBinaryDetails r));
      simpl; f_equal; lia.
Qed.

(** The summary of [printReports] against its status lines: every report
    gets exactly one of the three statuses; "Systemcrypto" counts the
    reports whose status is NOT COMPLIANT or MIGHT BE COMPLIANT; "Failed
    FIPS" counts the NOT COMPLIANT ones and, besides, the binaries without
    systemcrypto that fail the probe, which are printed as NOT FIPS
    ENABLED. *)
Theorem printReports_statistics (reports : list BinaryReport) :
  length reports =
    countStatus NOT_FIPS_ENABLED reports + countStatus STATUS_NOT_COMPLIANT reports
    + countStatus MIGHT_BE_COMPLIANT reports /\
  fst (countStatistics reports) =
    countStatus STATUS_NOT_COMPLIANT reports + countStatus MIGHT_BE_COMPLIANT reports /\
  snd (countStatistics reports) =
    countStatus STATUS_NOT_COMPLIANT reports +
    length (List.filter (fun r => negb (UseSystemcrypto (GoBinaryDetails r)) &&
                                  FailsOnFIPSCheck (GoBinaryDetails r)) reports) /\
  snd (countStatistics reports) <= length reports.
Proof.
  unfold countStatistics. rewrite countStatistics_acc. simpl.
  unfold countStatus, printedStatus.
  induction reports as [|r reports (IH1 & IH2 & IH3 & IH4)]; simpl; [done|].
  destruct (UseSystemcrypto (GoBinaryDetails r)), (FailsOnFIPSCheck (GoBinaryDetails r));
    simpl; lia.
Qed.

(** ** [printRuntimeOutput] *)

Lemma chars_append (a b : string) : chars (a +:+ b) = chars a ++ chars b.
Proof. induction a as [|x a IH]; simpl; [done | by rewrite IH]. Qed.

Lemma SplitSeq_newline_nonempty (s : string) : SplitSeq_newline s <> [].
Proof.
  destruct s as [|c s]; simpl; [done|].
  destruct (Ascii.eqb c newline); [done|]. by destruct (SplitSeq_newline s).
Qed.

Lemma Join_newline_cons (line : string) (lines : list string) :
  lines <> [] -> Join_newline (line :: lines) = (line +:+ nl +:+ Join_newline lines)%string.
Proof. by destruct lines. Qed.

Lemma Join_SplitSeq_newline (s : string) : Join_newline (SplitSeq_newline s) = s.
Proof.
  induction s as [|c s IH]; simpl; [done|].
  pose proof (SplitSeq_newline_nonempty s) as Hne.
  destruct (Ascii.eqb c newline) eqn:Hc.
  - apply Ascii.eqb_eq in Hc as ->. rewrite Join_newline_cons by done. simpl. by rewrite IH.
  - destruct (SplitSeq_newline s) as [|line lines]; [done|].
    destruct lines as [|line' lines]; simpl in *; by rewrite <- IH.
Qed.

Lemma SplitSeq_newline_chars (s : string) :
  concat (map chars (SplitSeq_newline s))
  = List.filter (fun c => negb (Ascii.eqb c newline)) (chars s).
Proof.
  induction s as [|c s IH]; simpl; [done|].
  pose proof (SplitSeq_newline_nonempty s) as Hne.
  destruct (Ascii.eqb c newline) eqn:Hc; simpl; [done|].
  destruct (SplitSeq_newline s) as [|line lines]; [done|]. simpl in *. by rewrite IH.
Qed.

Lemma SplitSeq_newline_no_newline (s line : string) :
  line ∈ SplitSeq_newline s -> newline ∉ chars line.
Proof.
  revert line. induction s as [|c s IH]; intros line; simpl.
  - intros ->%list_elem_of_singleton. apply not_elem_of_nil.
  - pose proof (SplitSeq_newline_nonempty s) as Hne.
    destruct (Ascii.eqb c newline) eqn:Hc.
    + intros [->|Hin]%elem_of_cons; [apply not_elem_of_nil | by apply IH].
    + destruct (SplitSeq_newline s) as [|l0 lines]; [done|].
      intros [->|Hin]%elem_of_cons.
      * simpl. intros [E|Hin]%elem_of_cons.
        -- subst c. by rewrite Ascii.eqb_refl in Hc.
        -- revert Hin. apply IH. apply list_elem_of_here.
      * apply IH. by apply list_elem_of_further.
Qed.

(** [printRuntimeOutput] prints nothing at all for an empty log; otherwise
    the header and then one line per non-empty line of the log, indented: no
    printed line is empty or holds a newline, and together they hold the
    characters of the log, the newlines removed, in order.  A log made of
    newlines only gets the header and no line. *)
Theorem printRuntimeOutput_lines (log : string) :
  exists lines,
    printRuntimeOutput log =
      (if String.eqb log "" then []
       else ("    Runtime Output:" +:+ nl)%string ::
            map (fun line => ("        " +:+ line +:+ nl)%string) lines) /\
    Forall (fun line => line <> ""%string /\ newline ∉ chars line) lines /\
    concat (map chars lines) = List.filter (fun c => negb (Ascii.eqb c newline)) (chars log) /\
    Join_newline (SplitSeq_newline log) = log /\
    sublist lines (SplitSeq_newline log).
Proof.
  exists (List.filter (fun line => negb (String.eqb line "")) (SplitSeq_newline log)).
  split; [|split; [|split; [|split]]].
  - unfold printRuntimeOutput. destruct (String.eqb log ""); simpl; [done|]. f_equal.
    induction (SplitSeq_newline log) as [|l ls IH]; simpl; [done|].
    destruct (String.eqb l ""); simpl; by rewrite IH.
  - apply Forall_forall. intros line [Hin Hne]%list_elem_of_In%filter_In. split.
    + apply negb_true_iff, String.eqb_neq in Hne. done.
    + apply SplitSeq_newline_no_newline with log. by apply list_elem_of_In.
  - rewrite <- SplitSeq_newline_chars.
    induction (SplitSeq_newline log) as [|l ls IH]; simpl; [done|].
    destruct (String.eqb l "") eqn:He; simpl; rewrite IH; [|done].
    by apply String.eqb_eq in He as ->.
  - apply Join_SplitSeq_newline.
  - induction (SplitSeq_newline log) as [|l ls IH]; simpl; [done|].
    destruct (negb (String.eqb l "")); [by apply sublist_skip | by apply sublist_cons].
Qed.

(** A log of newlines only: the header is printed, and no line. *)
Example printRuntimeOutput_blank :
  printRuntimeOutput (nl +:+ nl) = [("    Runtime Output:" +:+ nl)%string] /\
  printRuntimeOutput "" = [] /\
  printRuntimeOutput ("panic: x" +:+ nl +:+ nl +:+ "goroutine 1" +:+ nl)
    = [("    Runtime Output:" +:+ nl)%string; ("        panic: x" +:+ nl)%string;
       ("        goroutine 1" +:+ nl)%string].
Proof. done. Qed.

End PrintReportsFacts.

(** ** [opensslsetup]: the choice of the library *)

Section OpensslsetupFacts.
Import opensslsetup.


Lemma searchVersions_choice (checkVersion : string -> bool * bool) (versions : list string)
    (lcryptoFallback : string) :
  searchVersions checkVersion versions lcryptoFallback =
  match find (fun v => fst (checkVersion (lcryptoPrefix +:+ v)) &&
                       snd (checkVersion (lcryptoPrefix +:+ v))) versions with
  | Some v => (lcryptoPrefix +:+ v)%string
  | None =>
      if String.eqb lcryptoFallback "" then
        match find (fun v => fst (checkVersion (lcryptoPrefix +:+ v))) versions with
        | Some v => (lcryptoPrefix +:+ v)%string
        | None => ""%string
        end
      else lcryptoFallback
  end.
Proof.
  revert lcryptoFallback.
  induction versions as [|v rest IH]; intros fb; cbn -[String.append lcryptoPrefix String.eqb].
  - destruct (String.eqb fb "") eqn:E; [by apply String.eqb_eq in E | done].
  - destruct (fst (checkVersion (lcryptoPrefix +:+ v))) eqn:He;
      cbn -[String.append lcryptoPrefix String.eqb]; [|apply IH].
    destruct (snd (checkVersion (lcryptoPrefix +:+ v))) eqn:Hf; [done|].
    rewrite IH. destruct (find _ rest); [done|].
    destruct (String.eqb fb "") eqn:E; [done | by rewrite E].
Qed.

(** [searchKnownLibrary] returns the first library of the order 3, 1.1,
    11, 111 that exists and is FIPS-enabled, even when a library earlier in
    the order exists without FIPS; when none is FIPS-enabled, the first
    that exists; when none exists, the empty string. *)
Theorem searchKnownLibrary_choice (checkVersion : string -> bool * bool) :
  searchKnownLibrary checkVersion =
  match find (fun v => fst (checkVersion (lcryptoPrefix +:+ v)) &&
                       snd (checkVersion (lcryptoPrefix +:+ v))) knownVersions with
  | Some v => (lcryptoPrefix +:+ v)%string
  | None =>
      match find (fun v => fst (checkVersion (lcryptoPrefix +:+ v))) knownVersions with
      | Some v => (lcryptoPrefix +:+ v)%string
      | None => ""%string
      end
  end.
Proof. unfold searchKnownLibrary. by rewrite searchVersions_choice. Qed.

Lemma searchKnownLibrary_found (checkVersion : string -> bool * bool) :
  searchKnownLibrary checkVersion = ""%string \/
  exists v, In v knownVersions /\
            searchKnownLibrary checkVersion = (lcryptoPrefix +:+ v)%string /\
            fst (checkVersion (lcryptoPrefix +:+ v)) = true.
Proof.
  unfold searchKnownLibrary. rewrite searchVersions_choice.
  destruct (find _ knownVersions) as [v|] eqn:Hf.
  - right. apply find_some in Hf as [Hin [He _]%andb_true_iff]. by exists v.
  - destruct (find (fun v => fst (checkVersion _)) knownVersions) as [v|] eqn:He; [|by left].
    right. apply find_some in He as [Hin He]. by exists v.
Qed.

(** [library] never returns the empty string and always a name that begins
    with [libcrypto.so]: the override, not checked against what exists, when
    [GO_OPENSSL_VERSION_OVERRIDE] is set and not empty; else a known
    library that exists; else [libcrypto.so] without a version. *)
Theorem library_choice (Getenv : string -> string * bool)
    (checkVersion : string -> bool * bool) :
  HasPrefix (library Getenv checkVersion) "libcrypto.so" = true /\
  (let version := fst (Getenv "GO_OPENSSL_VERSION_OVERRIDE") in
   if String.eqb version "" then
     if String.eqb (searchKnownLibrary checkVersion) ""
     then library Getenv checkVersion = "libcrypto.so"%string
     else library Getenv checkVersion = searchKnownLibrary checkVersion /\
          fst (checkVersion (library Getenv checkVersion)) = true
   else library Getenv checkVersion = ("libcrypto.so." +:+ version)%string).
Proof.
  unfold library. cbv zeta.
  destruct (String.eqb (fst (Getenv "GO_OPENSSL_VERSION_OVERRIDE")) "") eqn:Hv;
    cbn [negb]; [|by split].
  destruct (searchKnownLibrary_found checkVersion) as [E|(v & _ & E & He)]; rewrite E.
  - by split.
  - assert (String.eqb (lcryptoPrefix +:+ v) "" = false) as -> by done.
    cbn [negb]. split; [done|]. split; [done | exact He].
Qed.

End OpensslsetupFacts.

(** ** [build-and-check.sh]: the image tag *)

Section BuildScriptFacts.
Import build_and_check.


Lemma replaceAll_absent (from to : ascii) (s : string) :
  from <> to -> from ∉ fipschecker.chars (replaceAll from to s).
Proof.
  intros Hne. induction s as [|c s IH]; simpl; [apply not_elem_of_nil|].
  apply not_elem_of_cons. split; [|done].
  destruct (Ascii.eqb c from) eqn:E; [done|]. apply Ascii.eqb_neq in E. congruence.
Qed.

Lemma replaceAll_keeps_absent (from to x : ascii) (s : string) :
  x <> to -> x ∉ fipschecker.chars s -> x ∉ fipschecker.chars (replaceAll from to s).
Proof.
  intros Hne. induction s as [|c s IH]; simpl; [done|].
  intros [Hc Hs]%not_elem_of_cons. apply not_elem_of_cons. split; [|by apply IH].
  by destruct (Ascii.eqb c from).
Qed.

Lemma replaceAll_length (from to : ascii) (s : string) :
  String.length (replaceAll from to s) = String.length s.
Proof. induction s as [|c s IH]; simpl; [done | by rewrite IH]. Qed.

Lemma replaceAll_idem (from to : ascii) (s : string) :
  from <> to -> replaceAll from to (replaceAll from to s) = replaceAll from to s.
Proof.
  intros Hne. induction s as [|c s IH]; simpl; [done|]. rewrite IH. f_equal.
  destruct (Ascii.eqb c from) eqn:E; [|by rewrite E].
  destruct (Ascii.eqb to from) eqn:E'; [|done]. apply Ascii.eqb_eq in E'. congruence.
Qed.

Lemma replaceAll_comm (a b to : ascii) (s : string) :
  a <> to -> b <> to ->
  replaceAll a to (replaceAll b to s) = replaceAll b to (replaceAll a to s).
Proof.
  intros Ha Hb. induction s as [|c s IH]; simpl; [done|]. rewrite IH. f_equal.
  destruct (Ascii.eqb c a) eqn:Ea, (Ascii.eqb c b) eqn:Eb; rewrite ?Ea, ?Eb; try done.
  - by destruct (Ascii.eqb to a), (Ascii.eqb to b).
  - destruct (Ascii.eqb to b) eqn:E; [|done]. apply Ascii.eqb_eq in E. congruence.
  - destruct (Ascii.eqb to a) eqn:E; [|done]. apply Ascii.eqb_eq in E. congruence.
Qed.

(** The tag the script builds and runs holds no slash and no colon, the
    colon after [fips-checker] included: it is [fips-checker-] followed by
    the name of the runtime image with each slash and colon turned into a
    dash.  Runtime images whose names differ only by a slash or a colon
    against a dash get the same tag. *)
Theorem IMAGE_TAG_shape (RUNTIME_IMAGE : string) :
  IMAGE_TAG RUNTIME_IMAGE =
    ("fips-checker-" +:+ replaceAll ":" "-" (replaceAll "/" "-" RUNTIME_IMAGE))%string /\
  ("/"%char ∉ fipschecker.chars (IMAGE_TAG RUNTIME_IMAGE)) /\
  (":"%char ∉ fipschecker.chars (IMAGE_TAG RUNTIME_IMAGE)) /\
  String.length (IMAGE_TAG RUNTIME_IMAGE) = 13 + String.length RUNTIME_IMAGE /\
  IMAGE_TAG (replaceAll "/" "-" RUNTIME_IMAGE) = IMAGE_TAG RUNTIME_IMAGE /\
  IMAGE_TAG (replaceAll ":" "-" RUNTIME_IMAGE) = IMAGE_TAG RUNTIME_IMAGE.
Proof.
  assert (IMAGE_TAG RUNTIME_IMAGE =
    ("fips-checker-" +:+ replaceAll ":" "-" (replaceAll "/" "-" RUNTIME_IMAGE))%string) as Heq.
  { done. }
  assert (forall s, IMAGE_TAG s
            = ("fips-checker-" +:+ replaceAll ":" "-" (replaceAll "/" "-" s))%string) as Hall.
  { done. }
  split; [done|]. split; [|split; [|split; [|split]]].
  - rewrite Heq. simpl. repeat (apply not_elem_of_cons; split; [done|]).
    apply replaceAll_keeps_absent; [done|]. by apply replaceAll_absent.
  - rewrite Heq. simpl. repeat (apply not_elem_of_cons; split; [done|]).
    by apply replaceAll_absent.
  - rewrite Heq. simpl. by rewrite !replaceAll_length.
  - rewrite !Hall. by rewrite replaceAll_idem.
  - rewrite !Hall. f_equal.
    rewrite (replaceAll_comm ":" "/" "-") by done.
    rewrite replaceAll_idem by done. by rewrite (replaceAll_comm "/" ":" "-").
Qed.

End BuildScriptFacts.

(** The status [printReports] prints for a report that carries an error:
    every such report of a collection [Check] returns is printed as NOT FIPS
    ENABLED (with the error on a line of its own) and is counted neither as
    systemcrypto nor as failed. *)
Theorem printReports_error_status (W : World) (path : string) (s : State)
    (rs : list BinaryReport) :
  reachable W path s -> pc s = MReturned (Reports rs) ->
  forall r, r ∈ rs -> Error r <> None ->
    printedStatus (GoBinaryDetails r) = NOT_FIPS_ENABLED /\
    UseSystemcrypto (GoBinaryDetails r) = false /\
    FailsOnFIPSCheck (GoBinaryDetails r) = false /\
    fipschecker.printRuntimeOutput (RuntimePanicLog (GoBinaryDetails r)) = [].
Proof.
  intros HI%Inv_reachable Hpc r Hr Herr.
  destruct (inv_returned _ _ _ HI rs Hpc) as (_ & -> & _).
  unfold expectedReports in Hr. apply list_elem_of_In, in_map_iff in Hr as (fp & <- & _).
  destruct (candidateReport_error W (absRoot s) fp) as [_ He].
  destruct (buildinfo_ReadFile W fp) as [i|err]; [done|].
  destruct He as [_ ->]. done.
Qed.

(** ** Witnesses in the demo world *)

(** From the state of the demo world in which two probes run, the scan can
    go on to the return of [Check]. *)
Lemma Check_can_always_return_witness :
  exists ls s' res,
    run Demo.world "/rootfs" ls (Demo.after "/rootfs" Demo.twoProbes) = Some s' /\
    pc s' = MReturned res /\
    forallb (fun l => negb (isCancel l)) ls = true /\
    ctx s' = ctx (Demo.after "/rootfs" Demo.twoProbes).
Proof.
  apply Check_can_always_return.
  apply Demo_reachable with Demo.twoProbes. vm_compute. reflexivity.
Defined.

(** The schedule that runs the three tasks of the demo world in order. *)
Lemma Check_run_length_witness :
  length Demo.inOrder <= 10 * length (WalkDir Demo.world "/rootfs") + 7.
Proof.
  apply (Check_run_length Demo.world "/rootfs" Demo.inOrder
           (Demo.after "/rootfs" Demo.inOrder)).
  vm_compute. reflexivity.
Defined.

(** The demo world with a context that has timed out before the call. *)
Lemma Check_cancelled_before_call_witness :
  ctx (Demo.after "/rootfs" [LCancel DeadlineExceeded; LMain; LMain])
    = Some DeadlineExceeded /\
  semaphore (Demo.after "/rootfs" [LCancel DeadlineExceeded; LMain; LMain]) = 0.
Proof.
  destruct (Check_cancelled_before_call Demo.world "/rootfs" DeadlineExceeded
              [LMain; LMain] (Demo.after "/rootfs" [LCancel DeadlineExceeded; LMain; LMain]))
    as (Hc & _ & Hs & _).
  - vm_compute. reflexivity.
  - split; [exact Hc | exact Hs].
Defined.

(** The demo world, whose root exists, with a cancelled context. *)
Lemma Check_cancelled_existing_root_witness :
  exists s,
    run Demo.world "/rootfs" [LCancel Canceled; LMain; LMain] init = Some s /\
    pc s = MReturned (Failed (ErrWalk (ErrCtx Canceled))).
Proof.
  exact (proj1 (Check_cancelled_existing_root Demo.world "/rootfs" "/rootfs" Demo.tree
                  Canceled eq_refl eq_refl)).
Defined.

(** The report of [bin/broken] in the collection of the demo world. *)
Lemma Check_returned_errors_witness :
  Type_ (candidateReport Demo.world "/rootfs" "/rootfs/bin/broken") = "gobinary"%string /\
  (Error (candidateReport Demo.world "/rootfs" "/rootfs/bin/broken") = None \/
   exists err,
     Error (candidateReport Demo.world "/rootfs" "/rootfs/bin/broken")
       = Some (ErrReadBuildInfo err) /\
     GoBinaryDetails (candidateReport Demo.world "/rootfs" "/rootfs/bin/broken")
       = zeroDetails).
Proof.
  apply (Check_returned_errors Demo.world "/rootfs" (Demo.after "/rootfs" Demo.inOrder)
           (expectedReports Demo.world "/rootfs")).
  - apply Demo_reachable with Demo.inOrder. vm_compute. reflexivity.
  - vm_compute. reflexivity.
  - apply list_elem_of_lookup_2 with 1. vm_compute. reflexivity.
Defined.

(** The status printed for [bin/broken]. *)
Lemma printReports_error_status_witness :
  printedStatus (GoBinaryDetails (candidateReport Demo.world "/rootfs" "/rootfs/bin/broken"))
    = NOT_FIPS_ENABLED /\
  Error (candidateReport Demo.world "/rootfs" "/rootfs/bin/broken") <> None.
Proof.
  assert (Error (candidateReport Demo.world "/rootfs" "/rootfs/bin/broken") <> None) as Hne.
  { vm_compute. discriminate. }
  split; [|exact Hne].
  apply (printReports_error_status Demo.world "/rootfs" (Demo.after "/rootfs" Demo.inOrder)
           (expectedReports Demo.world "/rootfs")).
  - apply Demo_reachable with Demo.inOrder. vm_compute. reflexivity.
  - vm_compute. reflexivity.
  - apply list_elem_of_lookup_2 with 1. vm_compute. reflexivity.
  - exact Hne.
Defined.

(** The probe of [bin/tool] in the demo world. *)
Lemma Check_probes_candidates_only_witness :
  exists details fp info c,
    tasks (Demo.after "/rootfs" Demo.twoProbes) !! 2 = Some (TProbing details) /\
    binaryPaths (Demo.after "/rootfs" Demo.twoProbes) !! 2 = Some fp /\
    c ∈ WalkDir Demo.world "/rootfs" /\ call_path c = fp /\ accepted Demo.world c = true /\
    buildinfo_ReadFile Demo.world fp = inl info.
Proof.
  assert (reachable Demo.world "/rootfs" (Demo.after "/rootfs" Demo.twoProbes)) as Hr.
  { apply Demo_reachable with Demo.twoProbes. vm_compute. reflexivity. }
  assert (exists details,
            tasks (Demo.after "/rootfs" Demo.twoProbes) !! 2 = Some (TProbing details))
    as [details Ht].
  { eexists. vm_compute. reflexivity. }
  destruct (Check_probes_candidates_only _ _ _ Hr 2 details Ht)
    as (fp & info & c & Hfp & _ & _ & Hc & Hp & Ha & Hi & _).
  exists details, fp, info, c. repeat split; assumption.
Defined.

(** An image extracted under [/tmp/rootfs]: its [proc/cpuinfo] is a
    candidate. *)
Lemma Check_filter_idle_beneath_root_witness :
  candidates imageWorld "/tmp/rootfs" =
    map call_path
      (List.filter (fun c => match call_err c with
                             | Some _ => false
                             | None => negb (call_IsDir c) && isBinary imageWorld (call_path c)
                             end) (WalkDir imageWorld "/tmp/rootfs")) /\
  candidates imageWorld "/tmp/rootfs" = ["/tmp/rootfs/proc/cpuinfo"; "/tmp/rootfs/usr/app"].
Proof.
  split; [|vm_compute; reflexivity].
  apply (Check_filter_idle_beneath_root imageWorld "/tmp/rootfs");
    [discriminate | discriminate | vm_compute; reflexivity].
Defined.

